(** * fakelens: the lens side of the body/lens serial handshake

    A shallow embedding of [fakelens.cpp].  The program talks to hardware
    only: it polls input pins and the SPI status flag in busy loops, writes
    output pins and SPI registers, and calls the delay primitives.  The
    embedding threads a [World] through every statement.  The world holds
    what the polled inputs will show (one list of future samples per polled
    source) and the chronological list of everything the program did. *)

From stdpp Require Import base list.
From Stdlib Require Import ZArith Lia.

Local Open Scope Z_scope.

(** ** Machine integers *)

(** [uint8] arithmetic: the value kept after an 8-bit store. *)
Definition u8 (z : Z) : Z := z mod 256.

(** [int] on the AVR target is 16 bits wide, two's complement.  Operands of
    type [uint8] are promoted to [int] before [-] and [<]. *)
Definition sint (z : Z) : Z := (z + 32768) mod 65536 - 32768.

(** A [uint8] loop counter takes 256 values; a loop whose condition held
    for all of them never exits. *)
Definition u8_span : nat := 256%nat.

(** ** Pins, registers and the event log *)

Inductive Pin : Set :=
  SLEEP | BODY_ACK | LENS_ACK | FOCUS | SHUTTER | CLK | DATA_MISO | DATA_MOSI.

Inductive PinDir : Set := INPUT | OUTPUT.

(** Bit positions of the SPI control register (ATmega, avr/io.h). *)
Definition SPE : Z := 6.
Definition DORD : Z := 5.
Definition CPOL : Z := 3.
Definition CPHA : Z := 2.

Inductive Event : Set :=
  | EvInit
  | EvSerialBegin (baud : Z)
  | EvPinMode (p : Pin) (d : PinDir)
  | EvDigitalWrite (p : Pin) (v : Z)
  | EvSleep (level : bool)      (* a loop polling SLEEP exited on this level *)
  | EvAck (level : bool)        (* a loop polling BODY_ACK exited on this level *)
  | EvSPCRWrite (v : Z)
  | EvSPDRWrite (v : Z)
  | EvSPIF                      (* a loop polling SPIF exited: transfer complete *)
  | EvSPDRRead (v : Z)
  | EvDelayMs (n : Z)
  | EvDelayUs (n : Z).

(** [sleep_pin] and [ack_pin] are the levels successive reads of the two
    input pins will return.  Each entry of [spi] is one read of the SPI
    status register: [None] when SPIF is clear, [Some b] when a transfer
    has completed and left byte [b] in the data register.  [spdr_rx] is the
    byte a read of SPDR returns. *)
Record World : Type := mkWorld {
  sleep_pin : list bool;
  ack_pin : list bool;
  spi : list (option Z);
  spdr_rx : Z;
  trace : list Event
}.

(** ** Outcomes and sequencing *)

Inductive Stuck : Set :=
  | PeerSilent   (* a polling loop never sees the level it waits for *)
  | Diverges     (* a counted loop whose counter wrapped around *)
  | BadIndex.    (* an array read past the array's extent *)

Inductive Result (A : Type) : Type :=
  | Done (a : A) (w : World)
  | Halt (s : Stuck).
Arguments Done {A} a w.
Arguments Halt {A} s.

Definition M (A : Type) : Type := World -> Result A.

Definition ret {A} (a : A) : M A := fun w => Done a w.

Definition bind {A B} (m : M A) (k : A -> M B) : M B :=
  fun w => match m w with
           | Done a w' => k a w'
           | Halt s => Halt s
           end.

Definition halt {A} (s : Stuck) : M A := fun _ => Halt s.

Declare Scope lens_scope.
Delimit Scope lens_scope with lens.
Notation "x <- m ;; k" := (bind m (fun x => k))
  (at level 100, m at level 99, k at level 200, right associativity)
  : lens_scope.
Notation "m ;; k" := (bind m (fun _ => k))
  (at level 100, k at level 200, right associativity) : lens_scope.
Local Open Scope lens_scope.

(** ** Hardware primitives *)

Definition log (e : Event) (w : World) : World :=
  mkWorld (sleep_pin w) (ack_pin w) (spi w) (spdr_rx w) (trace w ++ [e]).

Definition emit (e : Event) : M unit := fun w => Done tt (log e w).

(** [while (busy(sample)) {}]: reads samples until one is not busy and
    returns it with the samples left.  [None]: the loop spins for ever. *)
Fixpoint spin_while {A} (busy : A -> bool) (samples : list A)
  : option (A * list A) :=
  match samples with
  | [] => None
  | s :: rest => if busy s then spin_while busy rest else Some (s, rest)
  end.

Definition init : M unit := emit EvInit.
Definition serialBegin (baud : Z) : M unit := emit (EvSerialBegin baud).
Definition pinMode (p : Pin) (d : PinDir) : M unit := emit (EvPinMode p d).
Definition digitalWrite (p : Pin) (v : Z) : M unit := emit (EvDigitalWrite p v).
Definition delay (ms : Z) : M unit := emit (EvDelayMs ms).
Definition delayMicroseconds (us : Z) : M unit := emit (EvDelayUs us).
Definition set_SPCR (v : Z) : M unit := emit (EvSPCRWrite v).
Definition set_SPDR (v : Z) : M unit := emit (EvSPDRWrite v).

Definition get_SPDR : M Z :=
  fun w => Done (spdr_rx w) (log (EvSPDRRead (spdr_rx w)) w).

(** [while(digitalRead(SLEEP) == 0){}] *)
Definition while_sleep_low : M unit := fun w =>
  match spin_while negb (sleep_pin w) with
  | None => Halt PeerSilent
  | Some (s, rest) =>
      Done tt (log (EvSleep s)
                 (mkWorld rest (ack_pin w) (spi w) (spdr_rx w) (trace w)))
  end.

Definition while_ack (busy : bool -> bool) : M unit := fun w =>
  match spin_while busy (ack_pin w) with
  | None => Halt PeerSilent
  | Some (s, rest) =>
      Done tt (log (EvAck s)
                 (mkWorld (sleep_pin w) rest (spi w) (spdr_rx w) (trace w)))
  end.

(** [while(!(BODY_ACK_PIN & BODY_ACK_HIGH)){}] *)
Definition while_ack_low : M unit := while_ack negb.
(** [while(BODY_ACK_PIN & BODY_ACK_HIGH){}] *)
Definition while_ack_high : M unit := while_ack id.

Definition spif_clear (s : option Z) : bool :=
  match s with None => true | Some _ => false end.

(** [while(!(SPSR & (1<<SPIF))) {}] *)
Definition while_not_SPIF : M unit := fun w =>
  match spin_while spif_clear (spi w) with
  | Some (Some b, rest) =>
      Done tt (log EvSPIF
                 (mkWorld (sleep_pin w) (ack_pin w) rest b (trace w)))
  | _ => Halt PeerSilent
  end.

(** ** SignalLine: edges and levels of the body's ACK pin *)

Definition waitBodyFall : M unit :=
  while_ack_low ;;   (* Wait until it's high first *)
  while_ack_high.

Definition waitBodyRise : M unit :=
  while_ack_high ;;  (* Wait until it's low first *)
  while_ack_low.

Definition waitBodyLow : M unit :=
  delayMicroseconds 2 ;;
  while_ack_high.

Definition waitBodyHigh : M unit :=
  delayMicroseconds 2 ;;
  while_ack_low.

(** ** ByteTransport *)

Definition readByte : M Z :=
  pinMode DATA_MISO INPUT ;;
  set_SPDR 0x00 ;;
  while_not_SPIF ;;
  get_SPDR.

(** The value written back to SPDR after a transmission. *)
Definition spif_clear_value : Z := 0xFF.

Definition writeByte (value : Z) : M unit :=
  set_SPDR value ;;
  pinMode DATA_MISO OUTPUT ;;
  while_not_SPIF ;;
  set_SPDR spif_clear_value.

(** ** FramedChannel *)

(** The bound of the leading loop of [readBytesChecksum]: [nBytes - 1],
    computed in [int]. *)
Definition read_loop_bound (nBytes : Z) : Z := sint (nBytes - 1).

(** [for(uint8 i = ...; i < nBytes - 1; i++)] of [readBytesChecksum], entered
    with counter [i] and running sum [checksum]; returns the sum at exit. *)
Fixpoint read_loop (span : nat) (nBytes i checksum : Z) : M Z :=
  if i <? read_loop_bound nBytes then
    match span with
    | O => halt Diverges
    | S span' =>
        b <- readByte ;;
        digitalWrite LENS_ACK 0 ;;
        digitalWrite LENS_ACK 1 ;;
        read_loop span' nBytes (u8 (i + 1)) (u8 (checksum + b))
    end
  else ret checksum.

Definition readBytesChecksum (nBytes : Z) : M unit :=
  checksum <- read_loop u8_span nBytes 0 0 ;;
  b <- readByte ;;
  digitalWrite LENS_ACK 0 ;;
  waitBodyFall ;;
  digitalWrite LENS_ACK 1 ;;
  waitBodyHigh ;;
  writeByte (u8 (checksum + b)).

(** [values[i]] *)
Definition index (values : list Z) (i : Z) : M Z :=
  match values !! Z.to_nat i with
  | Some v => ret v
  | None => halt BadIndex
  end.

(** [for(uint8 i = ...; i < nBytes; i++)] of [writeBytesChecksum]. *)
Fixpoint write_loop (span : nat) (nBytes : Z) (values : list Z)
    (i checksum : Z) : M Z :=
  if i <? nBytes then
    match span with
    | O => halt Diverges
    | S span' =>
        waitBodyLow ;;
        digitalWrite LENS_ACK 0 ;;
        digitalWrite LENS_ACK 1 ;;
        v <- index values i ;;
        writeByte v ;;
        write_loop span' nBytes values (u8 (i + 1)) (u8 (checksum + v))
    end
  else ret checksum.

Definition writeBytesChecksum (nBytes : Z) (values : list Z) : M unit :=
  waitBodyFall ;;
  digitalWrite LENS_ACK 0 ;;
  digitalWrite LENS_ACK 1 ;;
  writeByte nBytes ;;
  checksum <- write_loop u8_span nBytes values 0 0 ;;
  waitBodyLow ;;
  digitalWrite LENS_ACK 0 ;;
  digitalWrite LENS_ACK 1 ;;
  writeByte checksum.

(** ** SessionScript *)

Definition spcr_config : Z :=
  Z.lor (Z.lor (Z.lor (Z.shiftl 1 SPE) (Z.shiftl 1 DORD)) (Z.shiftl 1 CPOL))
        (Z.shiftl 1 CPHA).

Definition setup : M unit :=
  serialBegin 115200 ;;
  pinMode SLEEP INPUT ;;
  pinMode BODY_ACK INPUT ;;
  pinMode LENS_ACK OUTPUT ;;
  pinMode FOCUS INPUT ;;
  pinMode SHUTTER INPUT ;;
  set_SPCR spcr_config ;;
  pinMode CLK INPUT ;;
  pinMode DATA_MISO INPUT ;;
  pinMode DATA_MOSI INPUT.

(** [uint8 values[31]] with 23 initialisers, given here row by row as in
    the source; the rest is zero-filled. *)
Definition standby_values : list Z :=
  [0x00; 0x00; 0x00; 0x00; 0x00; 0x00; 0x00; 0x00]
  ++ [0x00; 0x00; 0x00; 0x00; 0x00; 0x00; 0x00; 0x00]
  ++ [0x00; 0x00; 0x00; 0x00; 0x00; 0x00; 0x00]
  ++ replicate 8 0.

Definition standbyPacket : M unit :=
  readBytesChecksum 4 ;;
  writeBytesChecksum 31 standby_values.

Definition sendBytes : list Z := [0x00; 0x0a; 0x10; 0xc4; 0x09].

Definition sendBytes2 : list Z :=
  [0x00; 0x00; 0x00; 0x01; 0x10; 0x00; 0x00; 0x41;
   0x41; 0x41; 0x32; 0x34; 0x33; 0x38; 0x34; 0x31;
   0x00; 0x00; 0x00; 0x01; 0x11].

(** [main] from its first statement up to the final [while(1)]. *)
Definition main_negotiation : M unit :=
  init ;;
  setup ;;
  while_sleep_low ;;
  waitBodyHigh ;;
  digitalWrite LENS_ACK 1 ;;
  delay 10 ;;
  digitalWrite LENS_ACK 0 ;;
  waitBodyRise ;;
  digitalWrite LENS_ACK 1 ;;
  readBytesChecksum 4 ;;
  waitBodyFall ;;
  digitalWrite LENS_ACK 0 ;;
  waitBodyRise ;;
  digitalWrite LENS_ACK 1 ;;
  delay 500 ;;
  digitalWrite LENS_ACK 0 ;;
  waitBodyLow ;;
  digitalWrite LENS_ACK 1 ;;
  waitBodyRise ;;
  writeByte 0x00 ;;
  waitBodyLow ;;
  digitalWrite LENS_ACK 0 ;;
  waitBodyRise ;;
  digitalWrite LENS_ACK 1 ;;
  readBytesChecksum 4 ;;
  writeBytesChecksum 5 sendBytes ;;
  waitBodyLow ;;
  digitalWrite LENS_ACK 0 ;;
  waitBodyHigh ;;
  digitalWrite LENS_ACK 1 ;;
  readBytesChecksum 4 ;;
  waitBodyLow ;;
  digitalWrite LENS_ACK 0 ;;
  waitBodyHigh ;;
  digitalWrite LENS_ACK 1 ;;
  set_SPCR 0 ;;
  set_SPCR spcr_config ;;
  readBytesChecksum 4 ;;
  writeBytesChecksum 21 sendBytes2 ;;
  waitBodyLow ;;
  digitalWrite LENS_ACK 0 ;;
  waitBodyHigh ;;
  digitalWrite LENS_ACK 1 ;;
  readBytesChecksum 4 ;;
  writeBytesChecksum 2 sendBytes2 ;;
  waitBodyLow ;;
  digitalWrite LENS_ACK 0 ;;
  waitBodyHigh ;;
  digitalWrite LENS_ACK 1 ;;
  readBytesChecksum 4 ;;
  waitBodyLow ;;
  digitalWrite LENS_ACK 0 ;;
  delay 10 ;;
  digitalWrite LENS_ACK 1.

(** The body of the final [while(1)]: its only statement is commented out. *)
Definition standby_body : M unit := ret tt.

(** [k] rounds of a loop whose condition is the constant 1. *)
Fixpoint forever_upto (k : nat) (body : M unit) : M unit :=
  match k with
  | O => ret tt
  | S k' => body ;; forever_upto k' body
  end.

(** [main] never returns: [main k] is the program up to the end of the
    [k]-th round of its final loop. *)
Definition main (k : nat) : M unit :=
  main_negotiation ;;
  forever_upto k standby_body.

(** *** The script as a list of calls *)

(** One constructor per kind of statement of [main]. *)
Inductive Step : Type :=
  | CallInit
  | CallSetup
  | WhileSleepLow
  | WaitBodyFall
  | WaitBodyRise
  | WaitBodyLow
  | WaitBodyHigh
  | DigitalWrite (p : Pin) (v : Z)
  | Delay (ms : Z)
  | SetSPCR (v : Z)
  | WriteByte (v : Z)
  | ReadBytesChecksum (nBytes : Z)
  | WriteBytesChecksum (nBytes : Z) (values : list Z).

Definition run_step (s : Step) : M unit :=
  match s with
  | CallInit => init
  | CallSetup => setup
  | WhileSleepLow => while_sleep_low
  | WaitBodyFall => waitBodyFall
  | WaitBodyRise => waitBodyRise
  | WaitBodyLow => waitBodyLow
  | WaitBodyHigh => waitBodyHigh
  | DigitalWrite p v => digitalWrite p v
  | Delay ms => delay ms
  | SetSPCR v => set_SPCR v
  | WriteByte v => writeByte v
  | ReadBytesChecksum n => readBytesChecksum n
  | WriteBytesChecksum n values => writeBytesChecksum n values
  end.

Fixpoint run_script (script : list Step) : M unit :=
  match script with
  | [] => ret tt
  | [s] => run_step s
  | s :: rest => run_step s ;; run_script rest
  end.

Definition negotiation : list Step :=
  [ CallInit; CallSetup; WhileSleepLow; WaitBodyHigh;
    DigitalWrite LENS_ACK 1; Delay 10; DigitalWrite LENS_ACK 0;
    WaitBodyRise; DigitalWrite LENS_ACK 1;
    ReadBytesChecksum 4;
    WaitBodyFall; DigitalWrite LENS_ACK 0;
    WaitBodyRise; DigitalWrite LENS_ACK 1;
    Delay 500;
    DigitalWrite LENS_ACK 0; WaitBodyLow;
    DigitalWrite LENS_ACK 1; WaitBodyRise;
    WriteByte 0x00;
    WaitBodyLow; DigitalWrite LENS_ACK 0;
    WaitBodyRise; DigitalWrite LENS_ACK 1;
    ReadBytesChecksum 4;
    WriteBytesChecksum 5 sendBytes;
    WaitBodyLow; DigitalWrite LENS_ACK 0;
    WaitBodyHigh; DigitalWrite LENS_ACK 1;
    ReadBytesChecksum 4;
    WaitBodyLow; DigitalWrite LENS_ACK 0;
    WaitBodyHigh; DigitalWrite LENS_ACK 1;
    SetSPCR 0; SetSPCR spcr_config;
    ReadBytesChecksum 4;
    WriteBytesChecksum 21 sendBytes2;
    WaitBodyLow; DigitalWrite LENS_ACK 0;
    WaitBodyHigh; DigitalWrite LENS_ACK 1;
    ReadBytesChecksum 4;
    WriteBytesChecksum 2 sendBytes2;
    WaitBodyLow; DigitalWrite LENS_ACK 0;
    WaitBodyHigh; DigitalWrite LENS_ACK 1;
    ReadBytesChecksum 4;
    WaitBodyLow; DigitalWrite LENS_ACK 0;
    Delay 10; DigitalWrite LENS_ACK 1 ].

(** The lengths of the framed reads and writes a script performs. *)
Definition frame_read_lengths (script : list Step) : list Z :=
  omap (fun s => match s with ReadBytesChecksum n => Some n | _ => None end)
       script.

Definition frame_writes (script : list Step) : list (Z * list Z) :=
  omap (fun s => match s with
                 | WriteBytesChecksum n values => Some (n, values)
                 | _ => None
                 end) script.

Definition frame_write_lengths (script : list Step) : list Z :=
  (frame_writes script).*1.

(** ** Reading the event log *)

(** The bytes driven onto the data line.  A transfer that completes while
    DATA_MISO is an output shifts out the value last stored in SPDR;
    [miso] and [spdr] are the pin direction and register value before the
    first event. *)
Fixpoint wire_tx (miso : PinDir) (spdr : Z) (evs : list Event) : list Z :=
  match evs with
  | [] => []
  | EvPinMode DATA_MISO d :: evs' => wire_tx d spdr evs'
  | EvSPDRWrite v :: evs' => wire_tx miso v evs'
  | EvSPIF :: evs' =>
      match miso with
      | OUTPUT => spdr :: wire_tx miso spdr evs'
      | INPUT => wire_tx miso spdr evs'
      end
  | _ :: evs' => wire_tx miso spdr evs'
  end.

(** The bytes the program took from SPDR. *)
Definition received (evs : list Event) : list Z :=
  omap (fun e => match e with EvSPDRRead v => Some v | _ => None end) evs.

(** The values written to the local ready line. *)
Definition ready_writes (evs : list Event) : list Z :=
  omap (fun e => match e with
                 | EvDigitalWrite LENS_ACK v => Some v
                 | _ => None
                 end) evs.

Definition sumZ (bs : list Z) : Z := foldr Z.add 0 bs.

(** *** Event blocks of the channel operations *)

Definition read_events (b : Z) : list Event :=
  [EvPinMode DATA_MISO INPUT; EvSPDRWrite 0; EvSPIF; EvSPDRRead b].

Definition write_events (v : Z) : list Event :=
  [EvSPDRWrite v; EvPinMode DATA_MISO OUTPUT; EvSPIF;
   EvSPDRWrite spif_clear_value].

(** Ready line low, then high. *)
Definition toggle : list Event :=
  [EvDigitalWrite LENS_ACK 0; EvDigitalWrite LENS_ACK 1].

Definition fall_events : list Event := [EvAck true; EvAck false].
Definition rise_events : list Event := [EvAck false; EvAck true].
Definition low_events : list Event := [EvDelayUs 2; EvAck false].
Definition high_events : list Event := [EvDelayUs 2; EvAck true].

(** One handshake cycle, then one byte on the wire. *)
Definition cycle_then_byte (wait : list Event) (v : Z) : list Event :=
  wait ++ toggle ++ write_events v.

Definition write_frame_events (n : Z) (payload : list Z) : list Event :=
  cycle_then_byte fall_events n
  ++ flat_map (cycle_then_byte low_events) (payload ++ [sumZ payload mod 256]).

(** A read frame whose bytes are [front] followed by [last]. *)
Definition read_frame_events (front : list Z) (last : Z) : list Event :=
  flat_map (fun b => read_events b ++ toggle) front
  ++ read_events last ++ [EvDigitalWrite LENS_ACK 0]
  ++ fall_events ++ [EvDigitalWrite LENS_ACK 1] ++ high_events
  ++ write_events (sumZ (front ++ [last]) mod 256).

(** ** Specifications *)

(** The bytes of the transfers that complete, in order. *)
Definition completed (samples : list (option Z)) : list Z := omap id samples.

(** A peer that will show the ACK levels [acks] in this order (possibly
    with other samples in between) and whose next completed transfers
    deliver the bytes [rx]. *)
Record Peer (acks : list bool) (rx : list Z) (w : World) : Prop := mkPeer {
  peer_ack : acks `sublist_of` ack_pin w;
  peer_spi : rx `prefix_of` completed (spi w)
}.

(** [runs m acks rx a evs]: against any peer that shows [acks] and delivers
    [rx], [m] returns [a], having appended exactly [evs] to the log and
    used up exactly that much of the peer. *)
Definition runs {A} (m : M A) (acks : list bool) (rx : list Z)
    (a : A) (evs : list Event) : Prop :=
  forall acks' rx' w,
    Peer (acks ++ acks') (rx ++ rx') w ->
    exists w',
      m w = Done a w' /\ Peer acks' rx' w'
      /\ trace w' = trace w ++ evs /\ sleep_pin w' = sleep_pin w.

(** *** Independence from the data received *)

(** An event with the byte it carried blanked out. *)
Definition shape (e : Event) : Event :=
  match e with
  | EvSPDRRead _ => EvSPDRRead 0
  | EvSPDRWrite _ => EvSPDRWrite 0
  | _ => e
  end.

(** Two worlds that differ at most in the bytes exchanged: the pins show
    the same levels and the transfers complete at the same polls. *)
Record same_timing (w1 w2 : World) : Prop := mkSameTiming {
  st_sleep : sleep_pin w1 = sleep_pin w2;
  st_ack : ack_pin w1 = ack_pin w2;
  st_spi : spif_clear <$> spi w1 = spif_clear <$> spi w2;
  st_trace : shape <$> trace w1 = shape <$> trace w2
}.

Definition same_outcome {A B} (r1 : Result A) (r2 : Result B) : Prop :=
  match r1, r2 with
  | Done _ w1, Done _ w2 => same_timing w1 w2
  | Halt s1, Halt s2 => s1 = s2
  | _, _ => False
  end.

Definition data_blind {A B} (m1 : M A) (m2 : M B) : Prop :=
  forall w1 w2, same_timing w1 w2 -> same_outcome (m1 w1) (m2 w2).

(** *** Sample worlds *)

(** A peer whose ACK line alternates high/low and that completes every
    transfer at the first poll, delivering [bytes]. *)
Definition square_wave (periods : nat) : list bool :=
  mjoin (replicate periods [true; false]).

Definition prompt_peer (periods : nat) (bytes : list Z) : World :=
  mkWorld [false; true] (square_wave periods) (Some <$> bytes) 0 [].

(** A slower peer: the transfers complete at the second poll. *)
Definition slow_peer (periods : nat) (bytes : list Z) : World :=
  mkWorld [false; false; true] (false :: square_wave periods)
          (mjoin ((fun b => [None; Some b]) <$> bytes)) 0 [].

(** What the guard of the leading read loop would be if [nBytes - 1] were
    computed in [uint8]. *)
Definition read_loop_bound_u8 (nBytes : Z) : Z := u8 (nBytes - 1).

(** *** What a script asks of the peer *)

(** The ACK levels a step waits for, in order. *)
Definition step_acks (s : Step) : list bool :=
  match s with
  | WaitBodyFall => [true; false]
  | WaitBodyRise => [false; true]
  | WaitBodyLow => [false]
  | WaitBodyHigh => [true]
  | ReadBytesChecksum _ => [true; false; true]
  | WriteBytesChecksum n _ => [true; false] ++ replicate (Z.to_nat (n + 1)) false
  | _ => []
  end.

Definition script_acks (script : list Step) : list bool :=
  flat_map step_acks script.

(** The number of SPI transfers a step waits for. *)
Definition step_transfers (s : Step) : nat :=
  match s with
  | WriteByte _ => 1
  | ReadBytesChecksum n => Z.to_nat (Z.max n 1) + 1
  | WriteBytesChecksum n _ => Z.to_nat (n + 2)
  | _ => 0
  end.

Definition script_transfers (script : list Step) : nat :=
  sum_list (step_transfers <$> script).

(** The SLEEP levels a step waits for. *)
Definition step_sleeps (s : Step) : list bool :=
  match s with
  | WhileSleepLow => [true]
  | _ => []
  end.

Definition script_sleeps (script : list Step) : list bool :=
  flat_map step_sleeps script.

(** Arguments a framed call can be given: [nBytes] is a [uint8], and a
    framed write reads [values[0 .. nBytes-1]]. *)
Definition step_ok (s : Step) : Prop :=
  match s with
  | ReadBytesChecksum n => 0 <= n <= 255
  | WriteBytesChecksum n values =>
      0 <= n <= 255 /\ (Z.to_nat n <= length values)%nat
  | _ => True
  end.

(** The bytes a step puts on the data line and the bytes it keeps, when the
    transfers it waits for deliver [xs]. *)
Definition step_wire (s : Step) (xs : list Z) : list Z :=
  match s with
  | WriteByte v => [v]
  | ReadBytesChecksum n => [sumZ (take (Z.to_nat (Z.max n 1)) xs) mod 256]
  | WriteBytesChecksum n values =>
      n :: take (Z.to_nat n) values
      ++ [sumZ (take (Z.to_nat n) values) mod 256]
  | _ => []
  end.

Definition step_received (s : Step) (xs : list Z) : list Z :=
  match s with
  | ReadBytesChecksum n => take (Z.to_nat (Z.max n 1)) xs
  | _ => []
  end.

Fixpoint script_wire (script : list Step) (bytes : list Z) : list Z :=
  match script with
  | [] => []
  | s :: rest =>
      step_wire s (take (step_transfers s) bytes)
      ++ script_wire rest (drop (step_transfers s) bytes)
  end.

Fixpoint script_received (script : list Step) (bytes : list Z) : list Z :=
  match script with
  | [] => []
  | s :: rest =>
      step_received s (take (step_transfers s) bytes)
      ++ script_received rest (drop (step_transfers s) bytes)
  end.

(** [evs] drives exactly [bytes] onto the data line, whatever the pin
    direction and register content before and whatever follows. *)
Definition transmits (evs : list Event) (bytes : list Z) : Prop :=
  forall d v rest,
    exists d' v', wire_tx d v (evs ++ rest) = bytes ++ wire_tx d' v' rest.

(** An outcome that is a return or a wait on the peer, not a runaway loop
    or a read past an array. *)
Definition only_silent {A} (r : Result A) : Prop :=
  match r with
  | Done _ _ => True
  | Halt s => s = PeerSilent
  end.

(** *** The log of a script *)

(** What [setup] logs. *)
Definition setup_events : list Event :=
  [EvSerialBegin 115200;
   EvPinMode SLEEP INPUT; EvPinMode BODY_ACK INPUT; EvPinMode LENS_ACK OUTPUT;
   EvPinMode FOCUS INPUT; EvPinMode SHUTTER INPUT;
   EvSPCRWrite spcr_config;
   EvPinMode CLK INPUT; EvPinMode DATA_MISO INPUT; EvPinMode DATA_MOSI INPUT].

(** What a step logs when the transfers it waits for deliver [xs].  The
    delivered bytes show up in the reads of a framed read and in its reply,
    the sum of the bytes read modulo 256, and nowhere else. *)
Definition step_events (s : Step) (xs : list Z) : list Event :=
  match s with
  | CallInit => [EvInit]
  | CallSetup => setup_events
  | WhileSleepLow => [EvSleep true]
  | WaitBodyFall => fall_events
  | WaitBodyRise => rise_events
  | WaitBodyLow => low_events
  | WaitBodyHigh => high_events
  | DigitalWrite p v => [EvDigitalWrite p v]
  | Delay ms => [EvDelayMs ms]
  | SetSPCR v => [EvSPCRWrite v]
  | WriteByte v => write_events v
  | ReadBytesChecksum n =>
      let k := Z.to_nat (Z.max n 1) in
      read_frame_events (take (k - 1) xs) (default 0 (xs !! (k - 1)%nat))
  | WriteBytesChecksum n values =>
      write_frame_events n (take (Z.to_nat n) values)
  end.

Fixpoint script_events (script : list Step) (bytes : list Z) : list Event :=
  match script with
  | [] => []
  | s :: rest =>
      step_events s (take (step_transfers s) bytes)
      ++ script_events rest (drop (step_transfers s) bytes)
  end.

(** ** Basic facts *)

Lemma u8_range z : 0 <= u8 z < 256.
Proof. unfold u8. apply Z.mod_pos_bound. lia. Qed.

Lemma u8_small z : 0 <= z < 256 -> u8 z = z.
Proof. unfold u8. intros. apply Z.mod_small. lia. Qed.

Lemma u8_add_l a b : u8 (u8 a + b) = u8 (a + b).
Proof. unfold u8. apply Zplus_mod_idemp_l. Qed.

Lemma sint_small z : -32768 <= z < 32768 -> sint z = z.
Proof. unfold sint. intros. rewrite Z.mod_small; lia. Qed.

Lemma read_loop_bound_u8_arg n : 0 <= n <= 255 -> read_loop_bound n = n - 1.
Proof. intros. unfold read_loop_bound. apply sint_small. lia. Qed.

Lemma sumZ_app xs ys : sumZ (xs ++ ys) = sumZ xs + sumZ ys.
Proof. unfold sumZ. induction xs as [|x xs IH]; simpl; lia. Qed.

Lemma sumZ_cons x xs : sumZ (x :: xs) = x + sumZ xs.
Proof. reflexivity. Qed.

(** *** Polling loops *)

Lemma spin_while_ack busy (b : bool) acks samples :
  busy b = false ->
  (forall s, busy s = false -> s = b) ->
  (b :: acks) `sublist_of` samples ->
  exists rest, spin_while busy samples = Some (b, rest)
               /\ acks `sublist_of` rest.
Proof.
  intros Hb Honly. induction samples as [|s samples IH]; intros Hsub.
  - inversion Hsub.
  - simpl. destruct (busy s) eqn:Hs.
    + apply IH. inversion Hsub; subst; [congruence | assumption].
    + apply Honly in Hs as ->. exists samples. split; [reflexivity|].
      inversion Hsub; subst; [assumption|].
      etrans; [apply sublist_cons, reflexivity | eassumption].
Qed.

Lemma spin_while_spif b rx samples :
  (b :: rx) `prefix_of` completed samples ->
  exists rest, spin_while spif_clear samples = Some (Some b, rest)
               /\ rx `prefix_of` completed rest.
Proof.
  induction samples as [|s samples IH]; intros [k Hk].
  - discriminate.
  - destruct s as [x|]; simpl in *.
    + exists samples. injection Hk as -> Hk. split; [reflexivity|].
      exists k. exact Hk.
    + apply IH. exists k. exact Hk.
Qed.

(** *** Rules for [runs] *)

Lemma runs_eq {A} (m : M A) acks acks' rx rx' a a' evs evs' :
  runs m acks rx a evs ->
  acks = acks' -> rx = rx' -> a = a' -> evs = evs' ->
  runs m acks' rx' a' evs'.
Proof. intros H <- <- <- <-. exact H. Qed.

Lemma runs_ret {A} (a : A) : runs (ret a) [] [] a [].
Proof.
  intros acks' rx' w Hw. exists w. rewrite app_nil_r. auto.
Qed.

Lemma runs_bind {A B} (m : M A) (k : A -> M B) acks1 acks2 rx1 rx2 a b e1 e2 :
  runs m acks1 rx1 a e1 ->
  runs (k a) acks2 rx2 b e2 ->
  runs (bind m k) (acks1 ++ acks2) (rx1 ++ rx2) b (e1 ++ e2).
Proof.
  intros Hm Hk acks' rx' w Hw. rewrite <- !app_assoc in Hw.
  destruct (Hm _ _ _ Hw) as (w1 & E1 & P1 & T1 & S1).
  destruct (Hk _ _ _ P1) as (w2 & E2 & P2 & T2 & S2).
  exists w2. unfold bind. rewrite E1, E2.
  split; [reflexivity|]. split; [exact P2|]. split.
  - rewrite T2, T1, app_assoc. reflexivity.
  - congruence.
Qed.

Lemma runs_emit e : runs (emit e) [] [] tt [e].
Proof.
  intros acks' rx' [sl ak sp rxb tr] [Ha Hs]. eexists.
  split; [reflexivity|]. split; [split; assumption|]. split; reflexivity.
Qed.

Lemma runs_while_ack busy b :
  busy b = false -> (forall s, busy s = false -> s = b) ->
  runs (while_ack busy) [b] [] tt [EvAck b].
Proof.
  intros Hb Honly acks' rx' [sl ak sp rxb tr] [Ha Hs]. simpl in *.
  destruct (spin_while_ack busy b acks' ak Hb Honly Ha) as (rest & E & Hrest).
  unfold while_ack. simpl. rewrite E. eexists.
  split; [reflexivity|]. split; [split; assumption|]. split; reflexivity.
Qed.

Lemma runs_while_ack_low : runs while_ack_low [true] [] tt [EvAck true].
Proof. apply runs_while_ack; [reflexivity | intros []; simpl; congruence]. Qed.

Lemma runs_while_ack_high : runs while_ack_high [false] [] tt [EvAck false].
Proof. apply runs_while_ack; [reflexivity | intros []; simpl; congruence]. Qed.

Lemma runs_waitBodyFall : runs waitBodyFall [true; false] [] tt fall_events.
Proof.
  eapply runs_eq;
    [eapply runs_bind; [apply runs_while_ack_low | apply runs_while_ack_high]
    | reflexivity ..].
Qed.

Lemma runs_waitBodyRise : runs waitBodyRise [false; true] [] tt rise_events.
Proof.
  eapply runs_eq;
    [eapply runs_bind; [apply runs_while_ack_high | apply runs_while_ack_low]
    | reflexivity ..].
Qed.

Lemma runs_waitBodyLow : runs waitBodyLow [false] [] tt low_events.
Proof.
  eapply runs_eq;
    [eapply runs_bind; [apply runs_emit | apply runs_while_ack_high]
    | reflexivity ..].
Qed.

Lemma runs_waitBodyHigh : runs waitBodyHigh [true] [] tt high_events.
Proof.
  eapply runs_eq;
    [eapply runs_bind; [apply runs_emit | apply runs_while_ack_low]
    | reflexivity ..].
Qed.

Lemma runs_readByte b : runs readByte [] [b] b (read_events b).
Proof.
  intros acks' rx' [sl ak sp rxb tr] [Ha Hs]. simpl in *.
  destruct (spin_while_spif b rx' sp Hs) as (rest & E & Hrest).
  unfold readByte, bind, pinMode, set_SPDR, emit, while_not_SPIF, get_SPDR, log.
  simpl. rewrite E. simpl. eexists.
  split; [reflexivity|]. split; [split; assumption|]. simpl.
  split; [|reflexivity]. rewrite <- !app_assoc. reflexivity.
Qed.

Lemma runs_writeByte v x : runs (writeByte v) [] [x] tt (write_events v).
Proof.
  intros acks' rx' [sl ak sp rxb tr] [Ha Hs]. simpl in *.
  destruct (spin_while_spif x rx' sp Hs) as (rest & E & Hrest).
  unfold writeByte, bind, pinMode, set_SPDR, emit, while_not_SPIF, log.
  simpl. rewrite E. simpl. eexists.
  split; [reflexivity|]. split; [split; assumption|]. simpl.
  split; [|reflexivity]. rewrite <- !app_assoc. reflexivity.
Qed.

(** One statement of a straight-line block. *)
Ltac run1 :=
  first [ apply runs_waitBodyFall | apply runs_waitBodyRise
        | apply runs_waitBodyLow | apply runs_waitBodyHigh
        | apply runs_readByte | eapply runs_writeByte
        | apply runs_emit | apply runs_ret ].

Ltac run_block :=
  repeat lazymatch goal with
         | |- runs (bind _ _) _ _ _ _ => eapply runs_bind; [run1 |]
         end.

(** *** The loops *)

Lemma runs_read_loop bs : forall span n i c,
  0 <= i -> i + Z.of_nat (length bs) = n - 1 -> n <= 255 ->
  (length bs <= span)%nat -> 0 <= c < 256 ->
  runs (read_loop span n i c) [] bs (u8 (c + sumZ bs))
       (flat_map (fun b => read_events b ++ toggle) bs).
Proof.
  induction bs as [|b bs IH]; intros span n i c Hi Hn H255 Hspan Hc.
  - simpl in Hn. replace (read_loop span n i c) with (ret (A:=Z) c).
    + eapply runs_eq; [apply runs_ret | try reflexivity ..].
      unfold sumZ. simpl. rewrite Z.add_0_r, u8_small; auto.
    + destruct span; simpl; rewrite read_loop_bound_u8_arg by lia;
        destruct (Z.ltb_spec i (n - 1)); try lia; reflexivity.
  - simpl in Hn. destruct span as [|span]; [simpl in Hspan; lia|].
    cbn [read_loop]. rewrite read_loop_bound_u8_arg by lia.
    destruct (Z.ltb_spec i (n - 1)); [|lia].
    eapply runs_eq.
    + run_block. apply (IH span n (u8 (i + 1)) (u8 (c + b))).
      * pose proof (u8_range (i + 1)). lia.
      * rewrite u8_small by lia. lia.
      * lia.
      * simpl in Hspan. lia.
      * apply u8_range.
    + reflexivity.
    + reflexivity.
    + rewrite sumZ_cons, u8_add_l. f_equal. lia.
    + reflexivity.
Qed.

Lemma runs_write_loop k : forall span n values i c xs,
  0 <= i -> i + Z.of_nat k = n -> n <= 255 ->
  (Z.to_nat n <= length values)%nat ->
  (k <= span)%nat -> length xs = k -> 0 <= c < 256 ->
  runs (write_loop span n values i c) (replicate k false) xs
       (u8 (c + sumZ (take k (drop (Z.to_nat i) values))))
       (flat_map (cycle_then_byte low_events)
                 (take k (drop (Z.to_nat i) values))).
Proof.
  induction k as [|k IH]; intros span n values i c xs Hi Hn H255 Hlen Hspan Hxs Hc.
  - replace (write_loop span n values i c) with (ret (A:=Z) c).
    + destruct xs; [|discriminate].
      eapply runs_eq; [apply runs_ret | try reflexivity ..].
      unfold sumZ. simpl. rewrite Z.add_0_r, u8_small; auto.
    + destruct span; simpl; destruct (Z.ltb_spec i n); try lia; reflexivity.
  - destruct span as [|span]; [lia|]. destruct xs as [|x xs]; [discriminate|].
    cbn [write_loop]. destruct (Z.ltb_spec i n); [|lia].
    destruct (lookup_lt_is_Some_2 values (Z.to_nat i)) as [v Hv]; [lia|].
    rewrite (drop_S _ _ _ Hv).
    replace (S (Z.to_nat i)) with (Z.to_nat (u8 (i + 1)))
      by (rewrite u8_small by lia; lia).
    eapply runs_eq.
    + run_block. unfold index. rewrite Hv.
      run_block. apply (IH span n values (u8 (i + 1)) (u8 (c + v)) xs).
      * pose proof (u8_range (i + 1)). lia.
      * rewrite u8_small by lia. lia.
      * lia.
      * assumption.
      * lia.
      * simpl in Hxs. lia.
      * apply u8_range.
    + reflexivity.
    + reflexivity.
    + cbn [take]. rewrite sumZ_cons, u8_add_l. f_equal. lia.
    + reflexivity.
Qed.

(** *** The framed operations *)

Lemma runs_readBytesChecksum n front last x :
  1 <= n <= 255 -> Z.of_nat (length front) + 1 = n ->
  runs (readBytesChecksum n) [true; false; true] (front ++ [last; x]) tt
       (read_frame_events front last).
Proof.
  intros Hn Hlen. unfold readBytesChecksum.
  eapply runs_eq.
  - eapply runs_bind.
    + apply (runs_read_loop front u8_span n 0 0); unfold u8_span; lia.
    + run_block. eapply runs_writeByte.
  - reflexivity.
  - reflexivity.
  - reflexivity.
  - unfold read_frame_events. f_equal. simpl.
    rewrite u8_add_l, sumZ_app. unfold u8, write_events.
    do 14 f_equal. unfold sumZ. simpl. lia.
Qed.

Lemma runs_writeBytesChecksum n values xs :
  0 <= n <= 255 -> (Z.to_nat n <= length values)%nat ->
  length xs = Z.to_nat (n + 2) ->
  runs (writeBytesChecksum n values)
       ([true; false] ++ replicate (Z.to_nat (n + 1)) false) xs tt
       (write_frame_events n (take (Z.to_nat n) values)).
Proof.
  intros Hn Hlen Hxs. unfold writeBytesChecksum.
  destruct xs as [|x0 xs]; [simpl in Hxs; lia|].
  destruct xs as [|x xs _] using rev_ind; [simpl in Hxs; lia|].
  rename xs into mid.
  rewrite length_cons, length_app in Hxs. simpl in Hxs.
  eapply runs_eq.
  - run_block. eapply runs_bind.
    + apply (runs_write_loop (Z.to_nat n) u8_span n values 0 0 mid);
        unfold u8_span; lia.
    + run_block. eapply runs_writeByte.
  - simpl. replace (Z.to_nat (n + 1)) with (Z.to_nat n + 1)%nat by lia.
    rewrite replicate_add. reflexivity.
  - reflexivity.
  - reflexivity.
  - unfold write_frame_events. rewrite flat_map_app. simpl.
    rewrite Z.add_0_l. reflexivity.
Qed.

(** *** What the log of a frame shows *)

Lemma wire_tx_cycles bytes : forall d v,
  wire_tx d v (flat_map (cycle_then_byte low_events) bytes) = bytes.
Proof.
  induction bytes as [|b bytes IH]; intros d v; [reflexivity|].
  simpl. f_equal. apply IH.
Qed.

Lemma wire_tx_write_frame n payload d v :
  wire_tx d v (write_frame_events n payload)
  = n :: payload ++ [sumZ payload mod 256].
Proof.
  unfold write_frame_events. simpl. f_equal. apply wire_tx_cycles.
Qed.

Lemma wire_tx_reads front : forall d v rest,
  exists d' v',
    wire_tx d v (flat_map (fun b => read_events b ++ toggle) front ++ rest)
    = wire_tx d' v' rest.
Proof.
  induction front as [|b front IH]; intros d v rest.
  - exists d, v. reflexivity.
  - simpl. apply IH.
Qed.

Lemma wire_tx_read_frame front last d v :
  wire_tx d v (read_frame_events front last)
  = [sumZ (front ++ [last]) mod 256].
Proof.
  unfold read_frame_events.
  destruct (wire_tx_reads front d v
              (read_events last ++ [EvDigitalWrite LENS_ACK 0]
               ++ fall_events ++ [EvDigitalWrite LENS_ACK 1] ++ high_events
               ++ write_events (sumZ (front ++ [last]) mod 256)))
    as (d' & v' & ->).
  reflexivity.
Qed.

Lemma received_reads front :
  received (flat_map (fun b => read_events b ++ toggle) front) = front.
Proof.
  induction front as [|b front IH]; [reflexivity|].
  simpl. f_equal. exact IH.
Qed.

Lemma received_read_frame front last :
  received (read_frame_events front last) = front ++ [last].
Proof.
  unfold read_frame_events, received. rewrite omap_app.
  fold (received (flat_map (fun b => read_events b ++ toggle) front)).
  rewrite received_reads. reflexivity.
Qed.

(** The framed write against a cooperating peer, in the form shared by
    the statements below. *)
Lemma writeFrame_wire_gen (n : Z) (P xs : list Z) (acks' : list bool)
    (rx' : list Z) (w : World) :
  0 <= n <= 255 ->
  Z.of_nat (length P) = n ->
  length xs = Z.to_nat (n + 2) ->
  Peer ([true; false] ++ replicate (Z.to_nat (n + 1)) false ++ acks')
       (xs ++ rx') w ->
  exists w',
    writeBytesChecksum n P w = Done tt w'
    /\ trace w' = trace w ++ write_frame_events n P
    /\ (forall d v, wire_tx d v (write_frame_events n P)
                    = n :: P ++ [sumZ P mod 256]).
Proof.
  intros Hn HP Hxs Hpeer.
  assert (Htake : take (Z.to_nat n) P = P) by (apply take_ge; lia).
  destruct (runs_writeBytesChecksum n P xs Hn ltac:(lia) Hxs acks' rx' w)
    as (w' & E & Hp' & T & _).
  { rewrite <- app_assoc. exact Hpeer. }
  rewrite Htake in T. exists w'.
  split; [exact E|]. split; [exact T|].
  intros; apply wire_tx_write_frame.
Qed.

(** ** The framed write *)

(** C1.  For 0 <= n <= 255 and a payload P of n bytes, against a peer that
    drops its ACK line and keeps it low for every byte and clocks n+2
    transfers, [writeBytesChecksum n P] returns; it logs one handshake cycle
    (an ACK wait, then the ready line low and high) followed by one byte
    write for each of the length byte, the payload bytes in order and the
    checksum; the data line carries exactly the n+2 bytes n, P, and the sum
    of P modulo 256. *)
Theorem writeFrame_wire (n : Z) (P xs : list Z) (acks' : list bool)
    (rx' : list Z) (w : World) :
  0 <= n <= 255 ->
  Z.of_nat (length P) = n ->
  length xs = Z.to_nat (n + 2) ->
  Peer ([true; false] ++ replicate (Z.to_nat (n + 1)) false ++ acks')
       (xs ++ rx') w ->
  exists w' evs,
    writeBytesChecksum n P w = Done tt w'
    /\ trace w' = trace w ++ evs
    /\ evs = cycle_then_byte fall_events n
             ++ flat_map (cycle_then_byte low_events)
                         (P ++ [sumZ P mod 256])
    /\ (forall d v, wire_tx d v evs = n :: P ++ [sumZ P mod 256])
    /\ length (n :: P ++ [sumZ P mod 256]) = Z.to_nat (n + 2)
    /\ Peer acks' rx' w'.
Proof.
  intros Hn HP Hxs Hpeer.
  assert (Htake : take (Z.to_nat n) P = P) by (apply take_ge; lia).
  destruct (runs_writeBytesChecksum n P xs Hn ltac:(lia) Hxs acks' rx' w)
    as (w' & E & Hp' & T & _).
  { rewrite <- app_assoc. exact Hpeer. }
  rewrite Htake in T. exists w', (write_frame_events n P).
  split; [exact E|]. split; [exact T|]. split; [reflexivity|].
  split; [intros; apply wire_tx_write_frame|].
  split; [|exact Hp'].
  rewrite length_cons, length_app. simpl. lia.
Qed.

Lemma writeFrame_wire_witness :
  exists w',
    writeBytesChecksum 3 [200; 100; 7] (slow_peer 6 [1; 2; 3; 4; 5; 6]) = Done tt w'
    /\ wire_tx INPUT 0 (trace w') = [3; 200; 100; 7; 51].
Proof.
  destruct (writeFrame_wire 3 [200; 100; 7] [1; 2; 3; 4; 5] [false] [6]
              (slow_peer 6 [1; 2; 3; 4; 5; 6]))
    as (w' & evs & E & T & _ & W & _).
  - lia.
  - reflexivity.
  - reflexivity.
  - split.
    + vm_compute. repeat constructor.
    + exists []. reflexivity.
  - exists w'. split; [exact E|]. rewrite T. simpl. apply W.
Defined.

(** ** The framed read *)

(** C2.  For 1 <= n <= 255 and any n bytes [bs] delivered by the peer
    (which then completes the reply handshake and clocks one more
    transfer), [readBytesChecksum n] returns, has read exactly [bs], and
    puts a single byte on the data line: the sum of all n bytes modulo
    256. *)
Theorem readFrame_checksum (n : Z) (bs : list Z) (x : Z) (acks' : list bool)
    (rx' : list Z) (w : World) :
  1 <= n <= 255 ->
  Z.of_nat (length bs) = n ->
  Peer ([true; false; true] ++ acks') (bs ++ x :: rx') w ->
  exists w' evs,
    readBytesChecksum n w = Done tt w'
    /\ trace w' = trace w ++ evs
    /\ received evs = bs
    /\ (forall d v, wire_tx d v evs = [sumZ bs mod 256])
    /\ Peer acks' rx' w'.
Proof.
  intros Hn Hlen Hpeer.
  destruct bs as [|last front _] using rev_ind; [simpl in Hlen; lia|].
  rewrite length_app in Hlen. simpl in Hlen.
  destruct (runs_readBytesChecksum n front last x Hn ltac:(lia) acks' rx' w)
    as (w' & E & Hp' & T & _).
  { rewrite <- app_assoc. rewrite <- app_assoc in Hpeer. exact Hpeer. }
  exists w', (read_frame_events front last).
  split; [exact E|]. split; [exact T|].
  split; [apply received_read_frame|].
  split; [intros; apply wire_tx_read_frame | exact Hp'].
Qed.

Lemma readFrame_checksum_witness :
  exists w',
    readBytesChecksum 3 (slow_peer 3 [250; 9; 300; 0]) = Done tt w'
    /\ received (trace w') = [250; 9; 300]
    /\ wire_tx INPUT 0 (trace w') = [47].
Proof.
  destruct (readFrame_checksum 3 [250; 9; 300] 0 [false; true; false] []
              (slow_peer 3 [250; 9; 300; 0]))
    as (w' & evs & E & T & R & W & _).
  - lia.
  - reflexivity.
  - split.
    + vm_compute. repeat constructor.
    + exists []. reflexivity.
  - exists w'. split; [exact E|]. rewrite T. simpl.
    split; [exact R | apply W].
Defined.

(** ** The 5-byte frame of the script *)

(** C3, as stated, fails: against a prompt peer the frame
    {0x00,0x0a,0x10,0xc4,0x09} goes out with checksum 0xe7, and
    (0x00+0x0a+0x10+0xc4+0x09) mod 256 is not 0xdd. *)
Lemma sendBytes_checksum_not_dd :
  exists w',
    writeBytesChecksum 5 sendBytes (prompt_peer 7 (replicate 7 0)) = Done tt w'
    /\ wire_tx INPUT 0 (trace w') = [5; 0x00; 0x0a; 0x10; 0xc4; 0x09; 0xe7]
    /\ wire_tx INPUT 0 (trace w') <> [5; 0x00; 0x0a; 0x10; 0xc4; 0x09; 0xdd]
    /\ (0x00 + 0x0a + 0x10 + 0xc4 + 0x09) mod 256 <> 0xdd.
Proof.
  eexists. split; [vm_compute; reflexivity|].
  split; [vm_compute; reflexivity|].
  split; [vm_compute; discriminate | vm_compute; discriminate].
Qed.

(** C3, amended.  The script writes the frame {0x00,0x0a,0x10,0xc4,0x09}
    with length 5; against a peer that completes the handshakes and clocks
    seven transfers the call returns and the data line carries the length
    byte 5, the five payload bytes, and the checksum
    (0x00+0x0a+0x10+0xc4+0x09) mod 256 = 0xe7. *)
Theorem sendBytes_frame_wire (xs : list Z) (acks' : list bool) (rx' : list Z)
    (w : World) :
  length xs = 7%nat ->
  Peer ([true; false] ++ replicate 6 false ++ acks') (xs ++ rx') w ->
  WriteBytesChecksum 5 sendBytes ∈ negotiation
  /\ (0x00 + 0x0a + 0x10 + 0xc4 + 0x09) mod 256 = 0xe7
  /\ exists w' evs,
       writeBytesChecksum 5 sendBytes w = Done tt w'
       /\ trace w' = trace w ++ evs
       /\ forall d v,
            wire_tx d v evs = [5; 0x00; 0x0a; 0x10; 0xc4; 0x09; 0xe7].
Proof.
  intros Hxs Hpeer.
  split.
  { apply list_elem_of_In. unfold negotiation. simpl.
    repeat (first [left; reflexivity | right]). }
  split; [reflexivity|].
  destruct (writeFrame_wire_gen 5 sendBytes xs acks' rx' w)
    as (w' & E & T & W); try assumption; try reflexivity; try lia.
  exists w', (write_frame_events 5 sendBytes).
  split; [exact E|]. split; [exact T|]. exact W.
Qed.

Lemma sendBytes_frame_wire_witness :
  exists w',
    writeBytesChecksum 5 sendBytes (slow_peer 8 [9; 8; 7; 6; 5; 4; 3; 2]) = Done tt w'
    /\ wire_tx INPUT 0 (trace w') = [5; 0x00; 0x0a; 0x10; 0xc4; 0x09; 0xe7].
Proof.
  destruct (sendBytes_frame_wire [9; 8; 7; 6; 5; 4; 3] [true] [2]
              (slow_peer 8 [9; 8; 7; 6; 5; 4; 3; 2]))
    as (_ & _ & w' & evs & E & T & W).
  - reflexivity.
  - split.
    + vm_compute. repeat constructor.
    + exists []. reflexivity.
  - exists w'. split; [exact E|]. rewrite T. simpl. apply W.
Defined.

(** ** Reading a frame of one byte, or of none *)

(** For [nBytes] 0 and 1 the guard [0 < nBytes - 1] is false at entry. *)
Lemma read_loop_skipped_0 c : read_loop u8_span 0 0 c = ret c.
Proof. reflexivity. Qed.

Lemma read_loop_skipped_1 c : read_loop u8_span 1 0 c = ret c.
Proof. reflexivity. Qed.

Lemma readBytesChecksum_0_1 : readBytesChecksum 0 = readBytesChecksum 1.
Proof. reflexivity. Qed.

(** The log of a read of a single byte [b]. *)
Lemma read_single b x acks' rx' w :
  Peer ([true; false; true] ++ acks') (b :: x :: rx') w ->
  exists w',
    readBytesChecksum 1 w = Done tt w'
    /\ trace w' = trace w ++ read_frame_events [] b
    /\ Peer acks' rx' w'.
Proof.
  intros Hpeer.
  destruct (runs_readBytesChecksum 1 [] b x ltac:(lia) ltac:(reflexivity)
              acks' rx' w Hpeer) as (w' & E & Hp' & T & _).
  exists w'. auto.
Qed.

(** C6.  [readBytesChecksum 1] skips the leading loop, so its ready-line
    toggle runs zero times.  Against a peer that delivers byte [b] and
    completes the reply handshake it reads that one byte, lowers the ready
    line, and waits for the falling edge; the ready line is raised only
    after that wait, and the checksum reply follows. *)
Theorem readFrame_one (b x : Z) (acks' : list bool) (rx' : list Z)
    (w : World) :
  Peer ([true; false; true] ++ acks') (b :: x :: rx') w ->
  (forall c, read_loop u8_span 1 0 c = ret c)
  /\ exists w' upto_fall reply,
       readBytesChecksum 1 w = Done tt w'
       /\ trace w' = trace w ++ upto_fall ++ reply
       /\ upto_fall = read_events b ++ [EvDigitalWrite LENS_ACK 0]
                      ++ fall_events
       /\ reply = [EvDigitalWrite LENS_ACK 1] ++ high_events
                  ++ write_events (b mod 256)
       /\ received (upto_fall ++ reply) = [b]
       /\ ready_writes upto_fall = [0].
Proof.
  intros Hpeer. split; [exact read_loop_skipped_1|].
  destruct (read_single b x acks' rx' w Hpeer) as (w' & E & T & _).
  do 3 eexists. split; [exact E|].
  split; [|split; [reflexivity|split; [reflexivity|split; reflexivity]]].
  rewrite T. unfold read_frame_events, sumZ. simpl.
  rewrite Z.add_0_r. reflexivity.
Qed.

Lemma readFrame_one_witness :
  exists w',
    readBytesChecksum 1 (slow_peer 2 [77; 0]) = Done tt w'
    /\ received (trace w') = [77]
    /\ ready_writes (trace w') = [0; 1]
    /\ wire_tx INPUT 0 (trace w') = [77].
Proof.
  destruct (readFrame_one 77 0 [false] [] (slow_peer 2 [77; 0]))
    as (_ & w' & e1 & e2 & E & T & -> & -> & _).
  - split.
    + vm_compute. repeat constructor.
    + exists []. reflexivity.
  - exists w'. split; [exact E|]. rewrite T.
    split; [reflexivity|]. split; reflexivity.
Defined.

(** C10.  [readBytesChecksum 0] is [readBytesChecksum 1]: the bound
    [nBytes - 1] is computed in [int], so it is -1 and 0, the leading loop
    is skipped in both, and the calls agree on every world.  Against a
    peer that delivers byte [b] both read exactly that byte and reply with
    it as the checksum after the same handshake. *)
Theorem readFrame_zero_as_one :
  read_loop_bound 0 = -1 /\ read_loop_bound 1 = 0
  /\ (forall c, read_loop u8_span 0 0 c = ret c)
  /\ (forall c, read_loop u8_span 1 0 c = ret c)
  /\ (forall w, readBytesChecksum 0 w = readBytesChecksum 1 w)
  /\ forall b x acks' rx' w,
       0 <= b < 256 ->
       Peer ([true; false; true] ++ acks') (b :: x :: rx') w ->
       exists w',
         readBytesChecksum 0 w = Done tt w'
         /\ readBytesChecksum 1 w = Done tt w'
         /\ trace w' = trace w ++ read_events b
                       ++ [EvDigitalWrite LENS_ACK 0] ++ fall_events
                       ++ [EvDigitalWrite LENS_ACK 1] ++ high_events
                       ++ write_events b.
Proof.
  split; [reflexivity|]. split; [reflexivity|].
  split; [exact read_loop_skipped_0|]. split; [exact read_loop_skipped_1|].
  split; [intros; rewrite readBytesChecksum_0_1; reflexivity|].
  intros b x acks' rx' w Hb Hpeer.
  destruct (read_single b x acks' rx' w Hpeer) as (w' & E & T & _).
  exists w'. rewrite readBytesChecksum_0_1.
  split; [exact E|]. split; [exact E|].
  rewrite T. unfold read_frame_events, sumZ. simpl.
  rewrite Z.add_0_r, Z.mod_small by lia. reflexivity.
Qed.

Lemma readFrame_zero_as_one_witness :
  exists w',
    readBytesChecksum 0 (slow_peer 2 [200; 0]) = Done tt w'
    /\ readBytesChecksum 1 (slow_peer 2 [200; 0]) = Done tt w'
    /\ received (trace w') = [200]
    /\ wire_tx INPUT 0 (trace w') = [200].
Proof.
  destruct readFrame_zero_as_one as (_ & _ & _ & _ & _ & H).
  destruct (H 200 0 [false] [] (slow_peer 2 [200; 0])) as (w' & E0 & E1 & T).
  - lia.
  - split.
    + vm_compute. repeat constructor.
    + exists []. reflexivity.
  - exists w'. split; [exact E0|]. split; [exact E1|]. rewrite T.
    split; reflexivity.
Defined.

(** C4, as stated, fails: at [nBytes = 0] the bound of the leading loop is
    not the wrapped 8-bit value (255) but -1, and the loop is defined: it
    returns at once, even against a peer that never answers. *)
Lemma read_bound_zero_no_underflow :
  read_loop_bound 0 <> read_loop_bound_u8 0
  /\ read_loop_bound_u8 0 = 255
  /\ read_loop u8_span 0 0 0 (prompt_peer 0 []) = Done 0 (prompt_peer 0 []).
Proof.
  split; [vm_compute; discriminate|]. split; reflexivity.
Qed.

(** C4, amended.  At [nBytes = 0] the loop bound [nBytes - 1] is computed
    in [int] and is -1; the leading loop returns at once on every world,
    leaving it unchanged; and against a peer that delivers one byte and
    completes the reply handshake the call returns, having read exactly
    that byte. *)
Theorem readFrame_zero_defined (b x : Z) (acks' : list bool) (rx' : list Z)
    (w : World) :
  Peer ([true; false; true] ++ acks') (b :: x :: rx') w ->
  read_loop_bound 0 = -1
  /\ (forall w0, read_loop u8_span 0 0 0 w0 = Done 0 w0)
  /\ exists w' evs,
       readBytesChecksum 0 w = Done tt w'
       /\ trace w' = trace w ++ evs
       /\ received evs = [b]
       /\ forall d v, wire_tx d v evs = [b mod 256].
Proof.
  intros Hpeer. split; [reflexivity|]. split; [reflexivity|].
  destruct (read_single b x acks' rx' w Hpeer) as (w' & E & T & _).
  exists w', (read_frame_events [] b). rewrite readBytesChecksum_0_1.
  split; [exact E|]. split; [exact T|].
  split; [apply (received_read_frame [] b)|].
  intros d v. rewrite wire_tx_read_frame. unfold sumZ. simpl.
  rewrite Z.add_0_r. reflexivity.
Qed.

Lemma readFrame_zero_defined_witness :
  exists w',
    readBytesChecksum 0 (prompt_peer 2 [33; 0]) = Done tt w'
    /\ received (trace w') = [33].
Proof.
  destruct (readFrame_zero_defined 33 0 [false] [] (prompt_peer 2 [33; 0]))
    as (_ & _ & w' & evs & E & T & R & _).
  - split.
    + vm_compute. repeat constructor.
    + exists []. reflexivity.
  - exists w'. split; [exact E|]. rewrite T. exact R.
Defined.

(** ** Writing one byte *)




(** ** Standby *)

Lemma standby_rounds k w : forever_upto k standby_body w = Done tt w.
Proof. induction k as [|k IH]; [reflexivity|]. simpl. exact IH. Qed.

(** C8.  The body of the final loop is empty (the standby packet call is
    commented out), so once the negotiation has returned, the program after
    any number of rounds of the loop is in the very world the negotiation
    left: no sample has been consumed and nothing has been logged. *)
Theorem standby_silent (k : nat) (w w1 : World) :
  main_negotiation w = Done tt w1 ->
  standby_body = ret tt
  /\ forever_upto k standby_body w1 = Done tt w1
  /\ main k w = Done tt w1.
Proof.
  intros E. split; [reflexivity|]. split; [apply standby_rounds|].
  unfold main, bind. rewrite E. apply standby_rounds.
Qed.

Lemma standby_silent_witness :
  exists w1,
    main_negotiation (prompt_peer 120 (replicate 65 0)) = Done tt w1
    /\ main 1000 (prompt_peer 120 (replicate 65 0)) = Done tt w1.
Proof.
  eexists. split.
  - vm_compute. reflexivity.
  - apply (standby_silent 1000). vm_compute. reflexivity.
Defined.

(** ** Frame lengths of the script *)

Lemma run_negotiation : run_script negotiation = main_negotiation.
Proof.
  unfold negotiation, main_negotiation. cbn [run_script run_step].
  reflexivity.
Qed.

(** C5, as stated, fails: the script also writes a frame of length 2. *)
Lemma negotiation_writes_length_2 :
  ~ Forall (fun n => n = 5 \/ n = 21) (frame_write_lengths negotiation).
Proof.
  intros H. rewrite Forall_forall in H. specialize (H 2).
  assert (2 = 5 \/ 2 = 21) as [|]; [|lia..].
  apply H. vm_compute. repeat constructor.
Qed.

(** C5, amended.  In the negotiation script every framed read has length
    4, and there are exactly three framed writes: the 5-byte payload with
    length 5, the 21-byte payload with length 21, and the 21-byte payload
    again with length 2. *)
Theorem negotiation_frame_lengths :
  run_script negotiation = main_negotiation
  /\ frame_read_lengths negotiation = replicate 6 4
  /\ frame_writes negotiation
     = [(5, sendBytes); (21, sendBytes2); (2, sendBytes2)]
  /\ frame_write_lengths negotiation = [5; 21; 2]
  /\ length sendBytes = 5%nat /\ length sendBytes2 = 21%nat.
Proof.
  split; [exact run_negotiation|]. repeat split; reflexivity.
Qed.

(** ** No operation looks at the data *)

Lemma data_blind_bind {A A' B B'} (m1 : M A) (m2 : M A')
    (k1 : A -> M B) (k2 : A' -> M B') :
  data_blind m1 m2 ->
  (forall a1 a2, data_blind (k1 a1) (k2 a2)) ->
  data_blind (bind m1 k1) (bind m2 k2).
Proof.
  intros Hm Hk w1 w2 Hw. unfold bind. specialize (Hm w1 w2 Hw).
  destruct (m1 w1) as [a1 w1'|s1], (m2 w2) as [a2 w2'|s2];
    simpl in Hm; try contradiction.
  - apply Hk. exact Hm.
  - exact Hm.
Qed.

Lemma data_blind_ret {A B} (a : A) (b : B) : data_blind (ret a) (ret b).
Proof. intros w1 w2 Hw. exact Hw. Qed.

Lemma data_blind_halt {A B} s : data_blind (@halt A s) (@halt B s).
Proof. intros w1 w2 Hw. reflexivity. Qed.

Lemma same_timing_log e1 e2 w1 w2 :
  shape e1 = shape e2 -> same_timing w1 w2 ->
  same_timing (log e1 w1) (log e2 w2).
Proof.
  intros He [Hs Ha Hp Ht]. split; simpl; try assumption.
  rewrite !fmap_app, Ht. simpl. rewrite He. reflexivity.
Qed.

Lemma data_blind_emit e1 e2 :
  shape e1 = shape e2 -> data_blind (emit e1) (emit e2).
Proof. intros He w1 w2 Hw. apply same_timing_log; assumption. Qed.

Lemma data_blind_get_SPDR : data_blind get_SPDR get_SPDR.
Proof. intros w1 w2 Hw. apply same_timing_log; [reflexivity | assumption]. Qed.

Lemma data_blind_while_ack busy : data_blind (while_ack busy) (while_ack busy).
Proof.
  intros w1 w2 [Hs Ha Hp Ht]. unfold while_ack. rewrite Ha.
  destruct (spin_while busy (ack_pin w2)) as [[s rest]|]; [|reflexivity].
  apply same_timing_log; [reflexivity|]. split; assumption || reflexivity.
Qed.

Lemma data_blind_while_sleep_low : data_blind while_sleep_low while_sleep_low.
Proof.
  intros w1 w2 [Hs Ha Hp Ht]. unfold while_sleep_low. rewrite Hs.
  destruct (spin_while negb (sleep_pin w2)) as [[s rest]|]; [|reflexivity].
  apply same_timing_log; [reflexivity|]. split; assumption || reflexivity.
Qed.

Lemma spin_while_spif_blind l1 : forall l2,
  spif_clear <$> l1 = spif_clear <$> l2 ->
  match spin_while spif_clear l1, spin_while spif_clear l2 with
  | Some (Some _, r1), Some (Some _, r2) => spif_clear <$> r1 = spif_clear <$> r2
  | None, None => True
  | _, _ => False
  end.
Proof.
  induction l1 as [|[b1|] l1 IH]; intros [|[b2|] l2] H; simpl in *;
    try discriminate; try exact I.
  - injection H as H. exact H.
  - injection H as H. apply IH. exact H.
Qed.

Lemma data_blind_while_not_SPIF : data_blind while_not_SPIF while_not_SPIF.
Proof.
  intros w1 w2 [Hs Ha Hp Ht]. unfold while_not_SPIF.
  pose proof (spin_while_spif_blind _ _ Hp) as H.
  destruct (spin_while spif_clear (spi w1)) as [[[b1|] r1]|],
           (spin_while spif_clear (spi w2)) as [[[b2|] r2]|];
    try contradiction; try reflexivity.
  apply same_timing_log; [reflexivity|]. split; assumption.
Qed.

(** Straight-line code built from the primitives. *)
Ltac blind :=
  repeat first
    [ apply data_blind_get_SPDR
    | apply data_blind_while_not_SPIF
    | apply data_blind_while_sleep_low
    | apply data_blind_while_ack
    | apply data_blind_emit; reflexivity
    | apply data_blind_ret
    | apply data_blind_halt
    | assumption
    | apply data_blind_bind; [| intros ? ?] ].

Lemma data_blind_readByte : data_blind readByte readByte.
Proof. unfold readByte. blind. Qed.

Lemma data_blind_writeByte v1 v2 : data_blind (writeByte v1) (writeByte v2).
Proof. unfold writeByte. blind. Qed.

Lemma data_blind_wait :
  data_blind waitBodyFall waitBodyFall /\ data_blind waitBodyRise waitBodyRise
  /\ data_blind waitBodyLow waitBodyLow /\ data_blind waitBodyHigh waitBodyHigh.
Proof.
  unfold waitBodyFall, waitBodyRise, waitBodyLow, waitBodyHigh,
    while_ack_low, while_ack_high, delayMicroseconds.
  repeat split; blind.
Qed.

Lemma data_blind_read_loop span : forall n i c1 c2,
  data_blind (read_loop span n i c1) (read_loop span n i c2).
Proof.
  induction span as [|span IH]; intros n i c1 c2; cbn [read_loop];
    destruct (i <? read_loop_bound n); try apply data_blind_ret.
  - apply data_blind_halt.
  - apply data_blind_bind; [apply data_blind_readByte|]. intros b1 b2.
    unfold digitalWrite. blind. apply IH.
Qed.

Lemma data_blind_readBytesChecksum n :
  data_blind (readBytesChecksum n) (readBytesChecksum n).
Proof.
  destruct data_blind_wait as (HF & HR & HL & HH).
  unfold readBytesChecksum.
  apply data_blind_bind; [apply data_blind_read_loop|]. intros c1 c2.
  apply data_blind_bind; [apply data_blind_readByte|]. intros b1 b2.
  unfold digitalWrite.
  do 4 (apply data_blind_bind; [solve [blind] | intros ? ?]).
  apply data_blind_writeByte.
Qed.

Lemma data_blind_write_loop span : forall n values i c1 c2,
  data_blind (write_loop span n values i c1) (write_loop span n values i c2).
Proof.
  destruct data_blind_wait as (HF & HR & HL & HH).
  induction span as [|span IH]; intros n values i c1 c2; cbn [write_loop];
    destruct (i <? n); try apply data_blind_ret.
  - apply data_blind_halt.
  - unfold digitalWrite.
    do 3 (apply data_blind_bind; [solve [blind] | intros ? ?]).
    unfold index. destruct (values !! Z.to_nat i) as [v|].
    + apply data_blind_bind; [apply data_blind_ret|]. intros ? ?.
      apply data_blind_bind; [apply data_blind_writeByte|]. intros ? ?.
      apply IH.
    + apply data_blind_bind; [apply data_blind_halt|]. intros ? ?.
      apply data_blind_bind; [apply data_blind_writeByte|]. intros ? ?.
      apply IH.
Qed.

Lemma data_blind_writeBytesChecksum n values :
  data_blind (writeBytesChecksum n values) (writeBytesChecksum n values).
Proof.
  destruct data_blind_wait as (HF & HR & HL & HH).
  unfold writeBytesChecksum, digitalWrite.
  do 3 (apply data_blind_bind; [solve [blind] | intros ? ?]).
  apply data_blind_bind; [apply data_blind_writeByte|]. intros ? ?.
  apply data_blind_bind; [apply data_blind_write_loop|]. intros c1 c2.
  do 3 (apply data_blind_bind; [solve [blind] | intros ? ?]).
  apply data_blind_writeByte.
Qed.

Lemma data_blind_run_step s : data_blind (run_step s) (run_step s).
Proof.
  destruct data_blind_wait as (HF & HR & HL & HH).
  destruct s; simpl; try assumption.
  - unfold init. blind.
  - unfold setup, serialBegin, pinMode, set_SPCR. blind.
  - apply data_blind_while_sleep_low.
  - unfold digitalWrite. blind.
  - unfold delay. blind.
  - unfold set_SPCR. blind.
  - apply data_blind_writeByte.
  - apply data_blind_readBytesChecksum.
  - apply data_blind_writeBytesChecksum.
Qed.

Lemma data_blind_run_script script :
  data_blind (run_script script) (run_script script).
Proof.
  induction script as [|s script IH]; [apply data_blind_ret|].
  destruct script as [|s' script]; [apply data_blind_run_step|].
  change (run_script (s :: s' :: script))
    with (bind (run_step s) (fun _ => run_script (s' :: script))).
  apply data_blind_bind; [apply data_blind_run_step | intros _ _; exact IH].
Qed.

(** ** Further properties: the polling loops *)

Lemma spin_while_cases {A} (busy : A -> bool) (samples : list A) :
  match spin_while busy samples with
  | Some (s, rest) =>
      exists pre, samples = pre ++ s :: rest
                  /\ Forall (fun x => busy x = true) pre /\ busy s = false
  | None => Forall (fun x => busy x = true) samples
  end.
Proof.
  induction samples as [|x samples IH]; simpl; [constructor|].
  destruct (busy x) eqn:Hx.
  - destruct (spin_while busy samples) as [[s rest]|].
    + destruct IH as (pre & -> & Hpre & Hs).
      exists (x :: pre). repeat split; [constructor|]; assumption.
    + constructor; assumption.
  - exists []. repeat split; [constructor | assumption].
Qed.

Lemma all_low (l : list bool) :
  Forall (fun x => negb x = true) l -> l = replicate (length l) false.
Proof.
  induction 1 as [|[] l Hx _ IH]; simpl in *; [reflexivity|discriminate|].
  f_equal. exact IH.
Qed.

Lemma all_high (l : list bool) :
  Forall (fun x => id x = true) l -> l = replicate (length l) true.
Proof.
  induction 1 as [|[] l Hx _ IH]; simpl in *; [reflexivity| |discriminate].
  f_equal. exact IH.
Qed.

(** One polling loop on the ACK pin touches nothing but the ACK samples
    and the log. *)
Lemma while_ack_cases busy w :
  match while_ack busy w with
  | Done _ w' =>
      exists pre s,
        ack_pin w = pre ++ s :: ack_pin w'
        /\ Forall (fun x => busy x = true) pre /\ busy s = false
        /\ w' = mkWorld (sleep_pin w) (ack_pin w') (spi w) (spdr_rx w)
                        (trace w ++ [EvAck s])
  | Halt s => s = PeerSilent /\ Forall (fun x => busy x = true) (ack_pin w)
  end.
Proof.
  unfold while_ack. pose proof (spin_while_cases busy (ack_pin w)) as H.
  destruct (spin_while busy (ack_pin w)) as [[s rest]|].
  - destruct H as (pre & E & Hpre & Hs). exists pre, s. auto.
  - auto.
Qed.

Lemma while_ack_low_cases w :
  match while_ack_low w with
  | Done _ w' =>
      exists lows,
        ack_pin w = replicate lows false ++ true :: ack_pin w'
        /\ w' = mkWorld (sleep_pin w) (ack_pin w') (spi w) (spdr_rx w)
                        (trace w ++ [EvAck true])
  | Halt s => s = PeerSilent
              /\ ack_pin w = replicate (length (ack_pin w)) false
  end.
Proof.
  unfold while_ack_low. pose proof (while_ack_cases negb w) as H.
  destruct (while_ack negb w) as [[] w'|s].
  - destruct H as (pre & [] & E & Hpre & Hs & Hw); [|discriminate].
    exists (length pre). rewrite <- (all_low pre Hpre). auto.
  - destruct H as [-> H]. split; [reflexivity | apply all_low, H].
Qed.

Lemma while_ack_high_cases w :
  match while_ack_high w with
  | Done _ w' =>
      exists highs,
        ack_pin w = replicate highs true ++ false :: ack_pin w'
        /\ w' = mkWorld (sleep_pin w) (ack_pin w') (spi w) (spdr_rx w)
                        (trace w ++ [EvAck false])
  | Halt s => s = PeerSilent
              /\ ack_pin w = replicate (length (ack_pin w)) true
  end.
Proof.
  unfold while_ack_high. pose proof (while_ack_cases id w) as H.
  destruct (while_ack id w) as [[] w'|s].
  - destruct H as (pre & [] & E & Hpre & Hs & Hw); [discriminate|].
    exists (length pre). rewrite <- (all_high pre Hpre). auto.
  - destruct H as [-> H]. split; [reflexivity | apply all_high, H].
Qed.

(** X1.  [waitBodyFall] returns exactly at the first falling edge: it
    consumes the leading low samples, one or more high samples and the
    first low sample after them, and changes nothing else but the log.  It
    blocks exactly when the line, once high, never drops (or never gets
    high at all). *)
Theorem waitBodyFall_edge (w : World) :
  match waitBodyFall w with
  | Done _ w' =>
      exists lows highs,
        ack_pin w = replicate lows false ++ replicate (S highs) true
                    ++ false :: ack_pin w'
        /\ w' = mkWorld (sleep_pin w) (ack_pin w') (spi w) (spdr_rx w)
                        (trace w ++ fall_events)
  | Halt s =>
      s = PeerSilent
      /\ exists lows highs,
           ack_pin w = replicate lows false ++ replicate highs true
  end.
Proof.
  unfold waitBodyFall, bind. pose proof (while_ack_low_cases w) as H1.
  destruct (while_ack_low w) as [[] w1|s].
  - destruct H1 as (lows & E1 & Hw1).
    pose proof (while_ack_high_cases w1) as H2.
    destruct (while_ack_high w1) as [[] w2|s].
    + destruct H2 as (highs & E2 & Hw2). exists lows, highs.
      rewrite E1, E2. split; [reflexivity|].
      rewrite Hw2, Hw1. simpl. rewrite <- app_assoc. reflexivity.
    + destruct H2 as [-> E2]. split; [reflexivity|].
      exists lows, (S (length (ack_pin w1))). rewrite E1, E2 at 1.
      reflexivity.
  - destruct H1 as [-> E1]. split; [reflexivity|].
    exists (length (ack_pin w)), 0%nat. rewrite app_nil_r. exact E1.
Qed.

(** X2.  [waitBodyRise] returns exactly at the first rising edge: it
    consumes the leading high samples, one or more low samples and the
    first high sample after them, and changes nothing else but the log.  It
    blocks exactly when the line, once low, never rises again. *)
Theorem waitBodyRise_edge (w : World) :
  match waitBodyRise w with
  | Done _ w' =>
      exists highs lows,
        ack_pin w = replicate highs true ++ replicate (S lows) false
                    ++ true :: ack_pin w'
        /\ w' = mkWorld (sleep_pin w) (ack_pin w') (spi w) (spdr_rx w)
                        (trace w ++ rise_events)
  | Halt s =>
      s = PeerSilent
      /\ exists highs lows,
           ack_pin w = replicate highs true ++ replicate lows false
  end.
Proof.
  unfold waitBodyRise, bind. pose proof (while_ack_high_cases w) as H1.
  destruct (while_ack_high w) as [[] w1|s].
  - destruct H1 as (highs & E1 & Hw1).
    pose proof (while_ack_low_cases w1) as H2.
    destruct (while_ack_low w1) as [[] w2|s].
    + destruct H2 as (lows & E2 & Hw2). exists highs, lows.
      rewrite E1, E2. split; [reflexivity|].
      rewrite Hw2, Hw1. simpl. rewrite <- app_assoc. reflexivity.
    + destruct H2 as [-> E2]. split; [reflexivity|].
      exists highs, (S (length (ack_pin w1))). rewrite E1, E2 at 1.
      reflexivity.
  - destruct H1 as [-> E1]. split; [reflexivity|].
    exists (length (ack_pin w)), 0%nat. rewrite app_nil_r. exact E1.
Qed.

(** X3.  The level waits need no edge.  [waitBodyLow] first delays 2 us,
    then returns at the first low sample, consuming the high samples
    before it; it blocks exactly when every sample is high.
    [waitBodyHigh] is the mirror image. *)
Theorem waitBody_level (w : World) :
  match waitBodyLow w with
  | Done _ w' =>
      exists highs,
        ack_pin w = replicate highs true ++ false :: ack_pin w'
        /\ w' = mkWorld (sleep_pin w) (ack_pin w') (spi w) (spdr_rx w)
                        (trace w ++ low_events)
  | Halt s => s = PeerSilent
              /\ ack_pin w = replicate (length (ack_pin w)) true
  end
  /\ match waitBodyHigh w with
     | Done _ w' =>
         exists lows,
           ack_pin w = replicate lows false ++ true :: ack_pin w'
           /\ w' = mkWorld (sleep_pin w) (ack_pin w') (spi w) (spdr_rx w)
                           (trace w ++ high_events)
     | Halt s => s = PeerSilent
                 /\ ack_pin w = replicate (length (ack_pin w)) false
     end.
Proof.
  split.
  - unfold waitBodyLow, bind, delayMicroseconds, emit.
    pose proof (while_ack_high_cases (log (EvDelayUs 2) w)) as H.
    destruct (while_ack_high (log (EvDelayUs 2) w)) as [[] w'|s]; simpl in H.
    + destruct H as (highs & E & Hw). exists highs. split; [exact E|].
      rewrite Hw, <- app_assoc. reflexivity.
    + exact H.
  - unfold waitBodyHigh, bind, delayMicroseconds, emit.
    pose proof (while_ack_low_cases (log (EvDelayUs 2) w)) as H.
    destruct (while_ack_low (log (EvDelayUs 2) w)) as [[] w'|s]; simpl in H.
    + destruct H as (lows & E & Hw). exists lows. split; [exact E|].
      rewrite Hw, <- app_assoc. reflexivity.
    + exact H.
Qed.

(** X4.  On a line that is low and stays low, [waitBodyLow] returns after
    one sample, while [waitBodyFall] blocks: an edge wait misses a drop
    that happened before it started polling. *)
Theorem level_wait_catches_early_drop (n : nat) (w : World) :
  ack_pin w = replicate (S n) false ->
  waitBodyFall w = Halt PeerSilent
  /\ waitBodyLow w
     = Done tt (mkWorld (sleep_pin w) (replicate n false) (spi w) (spdr_rx w)
                        (trace w ++ low_events)).
Proof.
  intros E. split.
  - unfold waitBodyFall, bind, while_ack_low, while_ack. rewrite E.
    assert (H : spin_while negb (replicate (S n) false) = None).
    { generalize (S n). intros m. induction m; simpl; auto. }
    rewrite H. reflexivity.
  - unfold waitBodyLow, bind, delayMicroseconds, emit, while_ack_high,
      while_ack, log. simpl. rewrite E. simpl.
    rewrite <- app_assoc. reflexivity.
Qed.

Lemma level_wait_catches_early_drop_witness :
  waitBodyFall (mkWorld [] [false; false; false] [] 0 []) = Halt PeerSilent
  /\ waitBodyLow (mkWorld [] [false; false; false] [] 0 [])
     = Done tt (mkWorld [] [false; false] [] 0 [EvDelayUs 2; EvAck false]).
Proof.
  apply (level_wait_catches_early_drop 2
           (mkWorld [] [false; false; false] [] 0 [])).
  reflexivity.
Defined.

(** ** Further properties: scripts of calls against a cooperating peer *)

Lemma transmits_nil : transmits [] [].
Proof. intros d v rest. exists d, v. reflexivity. Qed.

Lemma transmits_app e1 e2 b1 b2 :
  transmits e1 b1 -> transmits e2 b2 -> transmits (e1 ++ e2) (b1 ++ b2).
Proof.
  intros H1 H2 d v rest. rewrite <- app_assoc.
  destruct (H1 d v (e2 ++ rest)) as (d1 & v1 & ->).
  destruct (H2 d1 v1 rest) as (d2 & v2 & ->).
  exists d2, v2. rewrite app_assoc. reflexivity.
Qed.

Lemma transmits_wire evs bytes d v :
  transmits evs bytes -> wire_tx d v evs = bytes.
Proof.
  intros H. destruct (H d v []) as (d' & v' & E).
  rewrite !app_nil_r in E. exact E.
Qed.

Lemma transmits_write v : transmits (write_events v) [v].
Proof. intros d v0 rest. exists OUTPUT, spif_clear_value. reflexivity. Qed.

Lemma transmits_cycles bytes :
  transmits (flat_map (cycle_then_byte low_events) bytes) bytes.
Proof.
  induction bytes as [|b bytes IH]; [apply transmits_nil|].
  intros d v rest. simpl.
  destruct (IH OUTPUT spif_clear_value rest) as (d' & v' & ->).
  exists d', v'. reflexivity.
Qed.

Lemma transmits_write_frame n payload :
  transmits (write_frame_events n payload)
            (n :: payload ++ [sumZ payload mod 256]).
Proof.
  intros d v rest. unfold write_frame_events. simpl.
  destruct (transmits_cycles (payload ++ [sumZ payload mod 256])
              OUTPUT spif_clear_value rest) as (d' & v' & ->).
  exists d', v'. reflexivity.
Qed.

Lemma transmits_read_frame front last :
  transmits (read_frame_events front last)
            [sumZ (front ++ [last]) mod 256].
Proof.
  intros d v rest. unfold read_frame_events. rewrite <- app_assoc.
  destruct (wire_tx_reads front d v
              ((read_events last ++ [EvDigitalWrite LENS_ACK 0]
                ++ fall_events ++ [EvDigitalWrite LENS_ACK 1] ++ high_events
                ++ write_events (sumZ (front ++ [last]) mod 256)) ++ rest))
    as (d' & v' & ->).
  exists OUTPUT, spif_clear_value. reflexivity.
Qed.

Lemma received_write_frame n payload :
  received (write_frame_events n payload) = [].
Proof.
  unfold write_frame_events. simpl.
  induction (payload ++ [sumZ payload mod 256]) as [|b bytes IH];
    [reflexivity | exact IH].
Qed.

(** Every step but the SLEEP wait, against a peer that serves it. *)
Lemma step_runs s xs :
  step_ok s -> step_sleeps s = [] -> length xs = step_transfers s ->
  exists evs,
    runs (run_step s) (step_acks s) xs tt evs
    /\ transmits evs (step_wire s xs)
    /\ received evs = step_received s xs.
Proof.
  intros Hok Hsl Hlen. destruct s; simpl in *; try discriminate;
    try (destruct xs; [|discriminate]).
  - exists [EvInit]. split; [apply runs_emit|].
    split; [intros d v rest; exists d, v|]; reflexivity.
  - eexists. split.
    + unfold setup. eapply runs_eq; [run_block; run1 | reflexivity ..].
    + split; [intros d v rest; exists INPUT, v|]; reflexivity.
  - exists fall_events. split; [apply runs_waitBodyFall|].
    split; [intros d v rest; exists d, v|]; reflexivity.
  - exists rise_events. split; [apply runs_waitBodyRise|].
    split; [intros d v rest; exists d, v|]; reflexivity.
  - exists low_events. split; [apply runs_waitBodyLow|].
    split; [intros d v rest; exists d, v|]; reflexivity.
  - exists high_events. split; [apply runs_waitBodyHigh|].
    split; [intros d v rest; exists d, v|]; reflexivity.
  - eexists. split; [apply runs_emit|].
    split; [intros d v0 rest; exists d, v0; destruct p|]; reflexivity.
  - eexists. split; [apply runs_emit|].
    split; [intros d v rest; exists d, v|]; reflexivity.
  - eexists. split; [apply runs_emit|].
    split; [intros d v0 rest; exists d, v0|]; reflexivity.
  - destruct xs as [|x [|? ?]]; try discriminate.
    exists (write_events v). split; [apply runs_writeByte|].
    split; [apply transmits_write | reflexivity].
  - (* ReadBytesChecksum *)
    destruct xs as [|x xs _] using rev_ind; [simpl in Hlen; lia|].
    rewrite length_app in Hlen. simpl in Hlen.
    assert (Hk : length xs = Z.to_nat (Z.max nBytes 1)) by lia.
    rewrite take_app_length' by (symmetry; exact Hk).
    destruct xs as [|last front _] using rev_ind; [simpl in Hk; lia|].
    rewrite length_app in Hk. simpl in Hk.
    exists (read_frame_events front last).
    split; [|split; [apply transmits_read_frame | apply received_read_frame]].
    rewrite <- app_assoc. simpl.
    destruct (Z.eq_dec nBytes 0) as [->|Hn].
    + rewrite readBytesChecksum_0_1. apply runs_readBytesChecksum; lia.
    + apply runs_readBytesChecksum; lia.
  - (* WriteBytesChecksum *)
    destruct Hok as [Hn Hv].
    exists (write_frame_events nBytes (take (Z.to_nat nBytes) values)).
    split; [apply runs_writeBytesChecksum; assumption|].
    split; [apply transmits_write_frame | apply received_write_frame].
Qed.

Lemma run_script_cons s rest w :
  run_script (s :: rest) w = bind (run_step s) (fun _ => run_script rest) w.
Proof.
  destruct rest; [|reflexivity]. simpl. unfold bind, ret.
  destruct (run_step s w) as [[] w'|]; reflexivity.
Qed.

Lemma while_sleep_low_ok sleeps w :
  (true :: sleeps) `sublist_of` sleep_pin w ->
  exists w',
    while_sleep_low w = Done tt w'
    /\ sleeps `sublist_of` sleep_pin w'
    /\ ack_pin w' = ack_pin w /\ spi w' = spi w
    /\ trace w' = trace w ++ [EvSleep true].
Proof.
  intros H.
  destruct (spin_while_ack negb true sleeps (sleep_pin w)) as (rest & E & Hr);
    [reflexivity | intros []; simpl; congruence | exact H |].
  unfold while_sleep_low. rewrite E. eexists. split; [reflexivity|].
  simpl. auto.
Qed.

Lemma script_runs script : forall bytes w,
  Forall step_ok script ->
  script_sleeps script `sublist_of` sleep_pin w ->
  script_acks script `sublist_of` ack_pin w ->
  bytes `prefix_of` completed (spi w) ->
  (script_transfers script <= length bytes)%nat ->
  exists w' evs,
    run_script script w = Done tt w'
    /\ trace w' = trace w ++ evs
    /\ transmits evs (script_wire script bytes)
    /\ received evs = script_received script bytes.
Proof.
  induction script as [|s script IH]; intros bytes w Hok Hsl Hack Hrx Hlen.
  - exists w, []. rewrite app_nil_r. split; [reflexivity|].
    split; [reflexivity|]. split; [apply transmits_nil | reflexivity].
  - apply Forall_cons in Hok as [Hs Hok].
    unfold script_transfers in Hlen. rewrite fmap_cons in Hlen.
    simpl in Hlen. fold (script_transfers script) in Hlen.
    rewrite run_script_cons. unfold bind.
    assert (Hcase : s = WhileSleepLow \/ step_sleeps s = [])
      by (destruct s; auto).
    destruct Hcase as [->|Hnil].
    + simpl in Hsl.
      destruct (while_sleep_low_ok _ w Hsl) as (w1 & E1 & Hsl1 & Ea & Es & T1).
      simpl run_step. rewrite E1.
      destruct (IH (drop 0 bytes) w1 Hok Hsl1) as (w' & evs & E & T & W & R).
      { rewrite Ea. exact Hack. }
      { rewrite Es. exact Hrx. }
      { exact Hlen. }
      exists w', (EvSleep true :: evs). split; [exact E|].
      split; [rewrite T, T1, <- app_assoc; reflexivity|].
      split; [|exact R].
      intros d v rest. destruct (W d v rest) as (d' & v' & E').
      exists d', v'. simpl. exact E'.
    + unfold script_sleeps in Hsl. simpl in Hsl. rewrite Hnil in Hsl.
      destruct (step_runs s (take (step_transfers s) bytes) Hs Hnil)
        as (e1 & Hruns & W1 & R1); [rewrite length_take; lia|].
      destruct (Hruns (script_acks script) (drop (step_transfers s) bytes) w)
        as (w1 & E1 & [Ha1 Hs1] & T1 & S1).
      { split; [exact Hack | rewrite take_drop; exact Hrx]. }
      rewrite E1.
      destruct (IH (drop (step_transfers s) bytes) w1 Hok) as (w' & e2 & E & T & W & R);
        [rewrite S1; exact Hsl | exact Ha1 | exact Hs1
        | rewrite length_drop; lia |].
      exists w', (e1 ++ e2). split; [exact E|].
      split; [rewrite T, T1, <- app_assoc; reflexivity|].
      split; [apply transmits_app; assumption|].
      unfold received. rewrite omap_app. fold (received e1) (received e2).
      rewrite R1, R. reflexivity.
Qed.

(** X5.  Any sequence of the calls [main] is made of, with arguments the
    framed calls can take, runs to its end against a peer that raises
    SLEEP for each SLEEP wait, shows the ACK levels the waits ask for in
    order, and completes as many transfers as the calls wait for.  The
    bytes it drives onto the data line and the bytes it reads are the
    per-call ones, one call after the other, each call taking its share of
    the completed transfers. *)
Theorem script_against_peer (script : list Step) (w : World) :
  Forall step_ok script ->
  script_sleeps script `sublist_of` sleep_pin w ->
  script_acks script `sublist_of` ack_pin w ->
  (script_transfers script <= length (completed (spi w)))%nat ->
  exists w' evs,
    run_script script w = Done tt w'
    /\ trace w' = trace w ++ evs
    /\ (forall d v, wire_tx d v evs = script_wire script (completed (spi w)))
    /\ received evs = script_received script (completed (spi w)).
Proof.
  intros Hok Hsl Hack Hlen.
  destruct (script_runs script (completed (spi w)) w Hok Hsl Hack)
    as (w' & evs & E & T & W & R); [reflexivity | exact Hlen |].
  exists w', evs. split; [exact E|]. split; [exact T|].
  split; [intros d v; apply transmits_wire, W | exact R].
Qed.

Lemma script_against_peer_witness :
  exists w',
    run_script [WhileSleepLow; WaitBodyRise; ReadBytesChecksum 2;
                WriteBytesChecksum 1 [9; 8]; WriteByte 7]
               (slow_peer 6 [250; 10; 0; 1; 2; 3; 4]) = Done tt w'
    /\ wire_tx INPUT 0 (trace w') = [4; 1; 9; 9; 7]
    /\ received (trace w') = [250; 10].
Proof.
  destruct (script_against_peer
              [WhileSleepLow; WaitBodyRise; ReadBytesChecksum 2;
               WriteBytesChecksum 1 [9; 8]; WriteByte 7]
              (slow_peer 6 [250; 10; 0; 1; 2; 3; 4]))
    as (w' & evs & E & T & W & R).
  - repeat constructor; simpl; lia.
  - vm_compute. repeat constructor.
  - vm_compute. repeat constructor.
  - vm_compute. lia.
  - exists w'. split; [exact E|]. rewrite T. simpl.
    split; [apply W | exact R].
Defined.

Lemma sublist_singleton (b : bool) (l : list bool) :
  b ∈ l -> [b] `sublist_of` l.
Proof.
  induction 1 as [x l|x y l _ IH].
  - apply sublist_skip, sublist_nil_l.
  - apply sublist_cons, IH.
Qed.

(** X6.  The whole negotiation of [main], against a peer that raises
    SLEEP, shows the ACK levels of the script in order and completes 65
    transfers: it returns; it keeps six 4-byte frames, taken from the
    completed transfers at offsets 0, 6, 18, 23, 51 and 60; and the data
    line carries, in order, the checksum of frame 1, the byte 0x00, the
    checksum of frame 2, the 5-byte frame with checksum 0xe7, the checksums
    of frames 3 and 4, the 21-byte frame with checksum 0x1c, the checksum
    of frame 5, the 2-byte frame {0,0} with checksum 0, and the checksum of
    frame 6: 41 bytes. *)
Theorem negotiation_against_peer (w : World) :
  true ∈ sleep_pin w ->
  script_acks negotiation `sublist_of` ack_pin w ->
  (65 <= length (completed (spi w)))%nat ->
  exists w' evs,
    main_negotiation w = Done tt w'
    /\ trace w' = trace w ++ evs
    /\ let frame k := take 4 (drop k (completed (spi w))) in
       let cks k := sumZ (frame k) mod 256 in
       received evs = frame 0%nat ++ frame 6%nat ++ frame 18%nat
                      ++ frame 23%nat ++ frame 51%nat ++ frame 60%nat
       /\ forall d v,
            wire_tx d v evs
            = [cks 0%nat; 0x00; cks 6%nat] ++ (5 :: sendBytes ++ [0xe7])
              ++ [cks 18%nat; cks 23%nat] ++ (21 :: sendBytes2 ++ [0x1c])
              ++ [cks 51%nat] ++ [2; 0x00; 0x00; 0x00] ++ [cks 60%nat].
Proof.
  intros Hsl Hack Hlen.
  destruct (script_runs negotiation (completed (spi w)) w)
    as (w' & evs & E & T & W & R).
  - unfold negotiation. repeat constructor; simpl; lia.
  - apply sublist_singleton, Hsl.
  - exact Hack.
  - reflexivity.
  - exact Hlen.
  - rewrite run_negotiation in E. exists w', evs.
    split; [exact E|]. split; [exact T|].
    remember (completed (spi w)) as rx eqn:Hrx. clear Hrx E T Hsl Hack.
    do 65 (destruct rx as [|? rx]; [simpl in Hlen; lia|]).
    split.
    + rewrite R. reflexivity.
    + intros d v. rewrite (transmits_wire _ _ d v W). reflexivity.
Qed.

Lemma negotiation_against_peer_witness :
  exists w',
    main_negotiation (prompt_peer 120 (Z.of_nat <$> seq 0 65)) = Done tt w'
    /\ received (trace w')
       = [0; 1; 2; 3; 6; 7; 8; 9; 18; 19; 20; 21; 23; 24; 25; 26;
          51; 52; 53; 54; 60; 61; 62; 63]
    /\ wire_tx INPUT 0 (trace w')
       = [6; 0; 30; 5; 0; 10; 16; 196; 9; 231; 78; 98;
          21; 0; 0; 0; 1; 16; 0; 0; 65; 65; 65; 50; 52; 51; 56; 52; 49;
          0; 0; 0; 1; 17; 28; 210; 2; 0; 0; 0; 246].
Proof.
  destruct (negotiation_against_peer (prompt_peer 120 (Z.of_nat <$> seq 0 65)))
    as (w' & evs & E & T & R & W).
  - vm_compute. repeat constructor.
  - vm_compute. repeat constructor.
  - vm_compute. lia.
  - exists w'. split; [exact E|]. rewrite T. simpl app.
    split; [rewrite R | rewrite W]; reflexivity.
Defined.

(** ** Further properties: what the calls never do *)

Lemma only_silent_bind {A B} (m : M A) (k : A -> M B) w :
  only_silent (m w) -> (forall a w1, only_silent (k a w1)) ->
  only_silent (bind m k w).
Proof.
  intros Hm Hk. unfold bind. destruct (m w) as [a w1|s]; [apply Hk | exact Hm].
Qed.

Lemma silent_emit e w : only_silent (emit e w).
Proof. exact I. Qed.

Lemma silent_while_ack busy w : only_silent (while_ack busy w).
Proof.
  unfold while_ack. destruct (spin_while busy (ack_pin w)) as [[s rest]|];
    [exact I | reflexivity].
Qed.

Lemma silent_while_not_SPIF w : only_silent (while_not_SPIF w).
Proof.
  unfold while_not_SPIF.
  destruct (spin_while spif_clear (spi w)) as [[[b|] rest]|];
    [exact I | reflexivity ..].
Qed.

Ltac silent :=
  repeat first
    [ exact I
    | apply silent_while_ack
    | apply silent_while_not_SPIF
    | apply only_silent_bind; [| intros ? ?] ].

Lemma silent_readByte w : only_silent (readByte w).
Proof. unfold readByte, pinMode, set_SPDR, get_SPDR. silent. Qed.

Lemma silent_writeByte v w : only_silent (writeByte v w).
Proof. unfold writeByte, pinMode, set_SPDR. silent. Qed.

Lemma silent_waitBodyFall w : only_silent (waitBodyFall w).
Proof. unfold waitBodyFall, while_ack_low, while_ack_high. silent. Qed.

Lemma silent_waitBodyLow w : only_silent (waitBodyLow w).
Proof. unfold waitBodyLow, while_ack_high, delayMicroseconds. silent. Qed.

Lemma silent_waitBodyHigh w : only_silent (waitBodyHigh w).
Proof. unfold waitBodyHigh, while_ack_low, delayMicroseconds. silent. Qed.

Lemma silent_read_loop span : forall n i c w,
  0 <= n <= 255 -> 0 <= i ->
  (Z.to_nat (n - 1 - i) <= span)%nat ->
  only_silent (read_loop span n i c w).
Proof.
  induction span as [|span IH]; intros n i c w Hn Hi Hspan; cbn [read_loop];
    rewrite read_loop_bound_u8_arg by exact Hn;
    destruct (Z.ltb_spec i (n - 1)); try exact I.
  - lia.
  - apply only_silent_bind; [apply silent_readByte | intros b w1].
    apply only_silent_bind; [apply silent_emit | intros ? ?].
    apply only_silent_bind; [apply silent_emit | intros ? ?].
    rewrite u8_small by lia. apply IH; lia.
Qed.

Lemma silent_write_loop span : forall n values i c w,
  0 <= n <= 255 -> 0 <= i -> (Z.to_nat n <= length values)%nat ->
  (Z.to_nat (n - i) <= span)%nat ->
  only_silent (write_loop span n values i c w).
Proof.
  induction span as [|span IH]; intros n values i c w Hn Hi Hv Hspan;
    cbn [write_loop]; destruct (Z.ltb_spec i n); try exact I.
  - lia.
  - apply only_silent_bind; [apply silent_waitBodyLow | intros ? ?].
    apply only_silent_bind; [apply silent_emit | intros ? ?].
    apply only_silent_bind; [apply silent_emit | intros ? ?].
    destruct (lookup_lt_is_Some_2 values (Z.to_nat i)) as [v Hv']; [lia|].
    unfold index. rewrite Hv'.
    apply only_silent_bind; [exact I | intros ? ?].
    apply only_silent_bind; [apply silent_writeByte | intros ? ?].
    rewrite u8_small by lia. apply IH; lia.
Qed.

(** X7.  For every [uint8] count the loops of the framed calls exit: the
    8-bit counter never wraps, and a framed write whose array holds at
    least [nBytes] values never reads past it.  On every world each call
    either returns or is waiting on the peer. *)
Theorem framed_calls_only_wait (n : Z) (values : list Z) (w : World) :
  0 <= n <= 255 ->
  only_silent (readBytesChecksum n w)
  /\ ((Z.to_nat n <= length values)%nat ->
      only_silent (writeBytesChecksum n values w)).
Proof.
  intros Hn. split.
  - unfold readBytesChecksum.
    apply only_silent_bind;
      [apply silent_read_loop; unfold u8_span; lia | intros c w1].
    apply only_silent_bind; [apply silent_readByte | intros ? ?].
    apply only_silent_bind; [apply silent_emit | intros ? ?].
    apply only_silent_bind; [apply silent_waitBodyFall | intros ? ?].
    apply only_silent_bind; [apply silent_emit | intros ? ?].
    apply only_silent_bind; [apply silent_waitBodyHigh | intros ? ?].
    apply silent_writeByte.
  - intros Hv. unfold writeBytesChecksum.
    apply only_silent_bind; [apply silent_waitBodyFall | intros ? ?].
    apply only_silent_bind; [apply silent_emit | intros ? ?].
    apply only_silent_bind; [apply silent_emit | intros ? ?].
    apply only_silent_bind; [apply silent_writeByte | intros ? ?].
    apply only_silent_bind;
      [apply silent_write_loop; unfold u8_span; lia | intros ? ?].
    apply only_silent_bind; [apply silent_waitBodyLow | intros ? ?].
    apply only_silent_bind; [apply silent_emit | intros ? ?].
    apply only_silent_bind; [apply silent_emit | intros ? ?].
    apply silent_writeByte.
Qed.

Lemma framed_calls_only_wait_witness :
  readBytesChecksum 255 (prompt_peer 0 [1; 2; 3]) = Halt PeerSilent
  /\ writeBytesChecksum 2 [5; 6] (prompt_peer 2 [0; 0; 0; 0]) = Halt PeerSilent.
Proof.
  destruct (framed_calls_only_wait 255 [] (prompt_peer 0 [1; 2; 3]))
    as [Hr _]; [lia|].
  destruct (framed_calls_only_wait 2 [5; 6] (prompt_peer 2 [0; 0; 0; 0]))
    as [_ Hw]; [lia|]. specialize (Hw ltac:(simpl; lia)).
  split.
  - destruct (readBytesChecksum 255 (prompt_peer 0 [1; 2; 3])) as [a w'|s] eqn:E;
      [vm_compute in E; discriminate | simpl in Hr; rewrite Hr; reflexivity].
  - destruct (writeBytesChecksum 2 [5; 6] (prompt_peer 2 [0; 0; 0; 0]))
      as [a w'|s] eqn:E;
      [vm_compute in E; discriminate | simpl in Hw; rewrite Hw; reflexivity].
Defined.

(** ** Further properties: the array of a framed write *)

Lemma write_loop_ext span : forall n values values' i c w,
  0 <= i ->
  (forall j, (j < Z.to_nat n)%nat -> values !! j = values' !! j) ->
  write_loop span n values i c w = write_loop span n values' i c w.
Proof.
  induction span as [|span IH]; intros n values values' i c w Hi H;
    cbn [write_loop]; destruct (Z.ltb_spec i n); try reflexivity.
  unfold bind. destruct (waitBodyLow w) as [[] w1|s]; [|reflexivity].
  cbn [digitalWrite emit]. unfold index.
  rewrite <- (H (Z.to_nat i)) by lia.
  destruct (values !! Z.to_nat i) as [v|]; [|reflexivity].
  cbn [ret]. destruct (writeByte v _) as [[] w2|s]; [|reflexivity].
  apply IH; [|exact H]. pose proof (u8_range (i + 1)). lia.
Qed.

(** X8.  A framed write looks at [values[0 .. nBytes-1]] only: two
    arrays that agree on their first [nBytes] elements give the same run on
    every world. *)
Theorem writeFrame_reads_prefix (n : Z) (values values' : list Z) (w : World) :
  take (Z.to_nat n) values = take (Z.to_nat n) values' ->
  writeBytesChecksum n values w = writeBytesChecksum n values' w.
Proof.
  intros H. unfold writeBytesChecksum, bind.
  destruct (waitBodyFall w) as [[] w1|s]; [|reflexivity].
  cbn [digitalWrite emit].
  destruct (writeByte n _) as [[] w2|s]; [|reflexivity].
  rewrite (write_loop_ext u8_span n values values' 0 0 w2); [reflexivity|lia|].
  intros j Hj.
  rewrite <- (lookup_take_lt values (Z.to_nat n) j) by exact Hj.
  rewrite <- (lookup_take_lt values' (Z.to_nat n) j) by exact Hj.
  rewrite H. reflexivity.
Qed.

Lemma writeFrame_reads_prefix_witness :
  writeBytesChecksum 2 sendBytes2 (slow_peer 5 [0; 0; 0; 0])
  = writeBytesChecksum 2 [0; 0] (slow_peer 5 [0; 0; 0; 0]).
Proof.
  apply writeFrame_reads_prefix. reflexivity.
Defined.

(** ** Further properties: the byte transport *)

Lemma all_pending (l : list (option Z)) :
  Forall (fun x => spif_clear x = true) l -> l = replicate (length l) None.
Proof.
  induction 1 as [|[b|] l Hx _ IH]; simpl in *; [reflexivity|discriminate|].
  f_equal. exact IH.
Qed.

(** X10.  [readByte] returns the byte of the first transfer that
    completes: it consumes the polls that find SPIF clear and the one that
    finds it set, leaves the byte in the data register, and touches no
    pin sample.  It blocks exactly when no poll finds SPIF set.  It makes
    DATA_MISO an input before the transfer, so it drives nothing onto the
    data line, whatever the pin was and whatever SPDR held. *)
Theorem readByte_first_transfer (w : World) :
  match readByte w with
  | Done b w' =>
      exists polls,
        spi w = replicate polls None ++ Some b :: spi w'
        /\ w' = mkWorld (sleep_pin w) (ack_pin w) (spi w') b
                        (trace w ++ read_events b)
        /\ forall d v, wire_tx d v (read_events b) = []
  | Halt s => s = PeerSilent /\ spi w = replicate (length (spi w)) None
  end.
Proof.
  destruct w as [sl ak sp rxb tr].
  unfold readByte, bind, pinMode, set_SPDR, emit, while_not_SPIF, get_SPDR, log.
  simpl. pose proof (spin_while_cases spif_clear sp) as H.
  destruct (spin_while spif_clear sp) as [[[b|] rest]|]; simpl.
  - destruct H as (pre & -> & Hpre & _). exists (length pre).
    rewrite <- (all_pending pre Hpre). split; [reflexivity|].
    split; [rewrite <- !app_assoc; reflexivity | reflexivity].
  - destruct H as (pre & _ & _ & Hs). discriminate.
  - split; [reflexivity | apply all_pending, H].
Qed.

(** ** Further properties: the camera never wakes *)






(** ** Further properties: the standby packet and the two directions *)

Lemma run_standbyPacket :
  run_script [ReadBytesChecksum 4; WriteBytesChecksum 31 standby_values]
  = standbyPacket.
Proof. reflexivity. Qed.

(** X12.  [standbyPacket], against a peer that completes both handshakes
    and 38 transfers: it returns, keeps the first four bytes delivered,
    replies with their sum modulo 256, and then sends a frame of length 31
    whose payload is 31 zero bytes (the 23 initialised and the 8
    zero-filled elements of its array) with checksum 0. *)
Theorem standbyPacket_against_peer (w : World) :
  ([true; false; true] ++ [true; false] ++ replicate 32 false)
    `sublist_of` ack_pin w ->
  (38 <= length (completed (spi w)))%nat ->
  exists w' evs,
    standbyPacket w = Done tt w'
    /\ trace w' = trace w ++ evs
    /\ received evs = take 4 (completed (spi w))
    /\ forall d v,
         wire_tx d v evs
         = [sumZ (take 4 (completed (spi w))) mod 256; 31]
           ++ replicate 31 0 ++ [0].
Proof.
  intros Hack Hlen.
  destruct (script_runs
              [ReadBytesChecksum 4; WriteBytesChecksum 31 standby_values]
              (completed (spi w)) w)
    as (w' & evs & E & T & W & R).
  - repeat constructor; simpl; lia.
  - apply sublist_nil_l.
  - exact Hack.
  - reflexivity.
  - exact Hlen.
  - rewrite run_standbyPacket in E. exists w', evs.
    split; [exact E|]. split; [exact T|].
    remember (completed (spi w)) as rx eqn:Hrx. clear Hrx E T Hack.
    do 5 (destruct rx as [|? rx]; [simpl in Hlen; lia|]).
    split.
    + rewrite R. reflexivity.
    + intros d v. rewrite (transmits_wire _ _ d v W). reflexivity.
Qed.

Lemma standbyPacket_against_peer_witness :
  exists w',
    standbyPacket (prompt_peer 40 (Z.of_nat <$> seq 0 38)) = Done tt w'
    /\ received (trace w') = [0; 1; 2; 3]
    /\ wire_tx INPUT 0 (trace w') = [6; 31] ++ replicate 31 0 ++ [0].
Proof.
  destruct (standbyPacket_against_peer (prompt_peer 40 (Z.of_nat <$> seq 0 38)))
    as (w' & evs & E & T & R & W).
  - vm_compute. repeat constructor.
  - vm_compute. lia.
  - exists w'. split; [exact E|]. rewrite T. simpl app.
    split; [rewrite R | rewrite W]; reflexivity.
Defined.

(** X13.  The two directions agree on the checksum.  If the payload a
    framed write sends (between its length byte and its checksum) is
    delivered to a framed read of the same length, the read keeps exactly
    that payload and replies with the very checksum byte the write
    appended. *)
Theorem checksum_round_trip (n : Z) (P xs : list Z) (x : Z)
    (acksW acksR : list bool) (rxW rxR : list Z) (ww wr : World) :
  1 <= n <= 255 ->
  Z.of_nat (length P) = n ->
  length xs = Z.to_nat (n + 2) ->
  Peer ([true; false] ++ replicate (Z.to_nat (n + 1)) false ++ acksW)
       (xs ++ rxW) ww ->
  Peer ([true; false; true] ++ acksR) (P ++ x :: rxR) wr ->
  exists ww' wr' sent kept c,
    writeBytesChecksum n P ww = Done tt ww'
    /\ readBytesChecksum n wr = Done tt wr'
    /\ trace ww' = trace ww ++ sent
    /\ trace wr' = trace wr ++ kept
    /\ (forall d v, wire_tx d v sent = n :: P ++ [c])
    /\ received kept = P
    /\ (forall d v, wire_tx d v kept = [c])
    /\ c = sumZ P mod 256.
Proof.
  intros Hn HP Hxs Hww Hwr.
  destruct (writeFrame_wire_gen n P xs acksW rxW ww)
    as (ww' & Ew & Tw & Ww); [lia | exact HP | exact Hxs | exact Hww |].
  destruct P as [|last front _] using rev_ind; [simpl in HP; lia|].
  rewrite length_app in HP. simpl in HP.
  destruct (runs_readBytesChecksum n front last x Hn ltac:(lia) acksR rxR wr)
    as (wr' & Er & _ & Tr & _).
  { rewrite <- app_assoc. rewrite <- app_assoc in Hwr. exact Hwr. }
  exists ww', wr', (write_frame_events n (front ++ [last])),
    (read_frame_events front last), (sumZ (front ++ [last]) mod 256).
  split; [exact Ew|]. split; [exact Er|]. split; [exact Tw|].
  split; [exact Tr|]. split; [exact Ww|].
  split; [apply received_read_frame|].
  split; [intros; apply wire_tx_read_frame | reflexivity].
Qed.

Lemma checksum_round_trip_witness :
  exists ww' wr',
    writeBytesChecksum 3 [200; 100; 7] (slow_peer 6 [1; 2; 3; 4; 5]) = Done tt ww'
    /\ readBytesChecksum 3 (prompt_peer 3 [200; 100; 7; 0]) = Done tt wr'
    /\ wire_tx INPUT 0 (trace ww') = [3; 200; 100; 7; 51]
    /\ received (trace wr') = [200; 100; 7]
    /\ wire_tx INPUT 0 (trace wr') = [51].
Proof.
  destruct (checksum_round_trip 3 [200; 100; 7] [1; 2; 3; 4; 5] 0
              [] [] [] []
              (slow_peer 6 [1; 2; 3; 4; 5]) (prompt_peer 3 [200; 100; 7; 0]))
    as (ww' & wr' & sent & kept & c & Ew & Er & Tw & Tr & Ws & Rk & Wk & ->).
  - lia.
  - reflexivity.
  - reflexivity.
  - split; [vm_compute; repeat constructor | exists []; reflexivity].
  - split; [vm_compute; repeat constructor | exists []; reflexivity].
  - exists ww', wr'. split; [exact Ew|]. split; [exact Er|].
    rewrite Tw, Tr. simpl app.
    split; [rewrite Ws; reflexivity|].
    split; [exact Rk | rewrite Wk; reflexivity].
Defined.

(** ** Nothing received is ever checked *)

(** Every step but the SLEEP wait logs exactly [step_events]. *)
Lemma step_runs_exact s xs :
  step_ok s -> step_sleeps s = [] -> length xs = step_transfers s ->
  runs (run_step s) (step_acks s) xs tt (step_events s xs).
Proof.
  intros Hok Hsl Hlen. destruct s; simpl in *; try discriminate;
    try (destruct xs; [|discriminate]).
  - apply runs_emit.
  - unfold setup. eapply runs_eq; [run_block; run1 | reflexivity ..].
  - apply runs_waitBodyFall.
  - apply runs_waitBodyRise.
  - apply runs_waitBodyLow.
  - apply runs_waitBodyHigh.
  - apply runs_emit.
  - apply runs_emit.
  - apply runs_emit.
  - destruct xs as [|x [|? ?]]; try discriminate. apply runs_writeByte.
  - destruct xs as [|x xs _] using rev_ind; [simpl in Hlen; lia|].
    rewrite length_app in Hlen. simpl in Hlen.
    destruct xs as [|last front _] using rev_ind; [simpl in Hlen; lia|].
    rewrite length_app in Hlen. simpl in Hlen.
    replace (Z.to_nat (Z.max nBytes 1) - 1)%nat with (length front) by lia.
    rewrite <- !app_assoc. simpl.
    rewrite take_app_length, list_lookup_middle by reflexivity. simpl.
    destruct (Z.eq_dec nBytes 0) as [->|Hn].
    + rewrite readBytesChecksum_0_1. apply runs_readBytesChecksum; lia.
    + apply runs_readBytesChecksum; lia.
  - destruct Hok as [Hn Hv]. apply runs_writeBytesChecksum; assumption.
Qed.

Lemma script_runs_exact script : forall bytes w,
  Forall step_ok script ->
  script_sleeps script `sublist_of` sleep_pin w ->
  script_acks script `sublist_of` ack_pin w ->
  bytes `prefix_of` completed (spi w) ->
  (script_transfers script <= length bytes)%nat ->
  exists w',
    run_script script w = Done tt w'
    /\ trace w' = trace w ++ script_events script bytes.
Proof.
  induction script as [|s script IH]; intros bytes w Hok Hsl Hack Hrx Hlen.
  - exists w. rewrite app_nil_r. split; reflexivity.
  - apply Forall_cons in Hok as [Hs Hok].
    unfold script_transfers in Hlen. rewrite fmap_cons in Hlen.
    simpl in Hlen. fold (script_transfers script) in Hlen.
    rewrite run_script_cons. unfold bind.
    assert (Hcase : s = WhileSleepLow \/ step_sleeps s = [])
      by (destruct s; auto).
    destruct Hcase as [->|Hnil].
    + simpl in Hsl.
      destruct (while_sleep_low_ok _ w Hsl) as (w1 & E1 & Hsl1 & Ea & Es & T1).
      simpl run_step. rewrite E1.
      destruct (IH (drop 0 bytes) w1 Hok Hsl1) as (w' & E & T).
      { rewrite Ea. exact Hack. }
      { rewrite Es. exact Hrx. }
      { exact Hlen. }
      exists w'. split; [exact E|].
      rewrite T, T1, <- app_assoc. reflexivity.
    + unfold script_sleeps in Hsl. simpl in Hsl. rewrite Hnil in Hsl.
      pose proof (step_runs_exact s (take (step_transfers s) bytes) Hs Hnil)
        as Hruns.
      destruct (Hruns ltac:(rewrite length_take; lia)
                  (script_acks script) (drop (step_transfers s) bytes) w)
        as (w1 & E1 & [Ha1 Hs1] & T1 & S1).
      { split; [exact Hack | rewrite take_drop; exact Hrx]. }
      rewrite E1.
      destruct (IH (drop (step_transfers s) bytes) w1 Hok) as (w' & E & T);
        [rewrite S1; exact Hsl | exact Ha1 | exact Hs1
        | rewrite length_drop; lia |].
      exists w'. split; [exact E|].
      simpl script_events. rewrite T, T1, <- app_assoc. reflexivity.
Qed.

(** C7.  Nothing in the channel or in the negotiation checks a byte it
    receives.
    (1) For 1 <= n <= 255 and ANY n bytes [bs] delivered,
    [readBytesChecksum n] returns [tt]; its log is the n reads of [bs]
    with their ready-line writes, the reply handshake, and one byte
    written: the sum of [bs] modulo 256, whatever [bs] is.
    (2) [writeBytesChecksum n P] returns [tt] with a log in which the
    bytes [xs] clocked in during its n+2 transfers do not occur at all.
    (3) The negotiation of [main] returns for ANY 65 bytes delivered, and
    its log is [script_events], in which the delivered bytes occur only as
    the bytes read by the framed reads and in their checksum replies.
    (4) On all worlds, answering or not: run on two worlds that differ
    only in the bytes exchanged, the framed calls and the negotiation end
    the same way on both (both return, or both stop for the same reason)
    after the same events up to the byte values carried. *)
Theorem corrupted_exchange_accepted :
  (forall n bs x acks' rx' w,
      1 <= n <= 255 -> Z.of_nat (length bs) = n ->
      Peer ([true; false; true] ++ acks') (bs ++ x :: rx') w ->
      exists w' front last,
        bs = front ++ [last]
        /\ readBytesChecksum n w = Done tt w'
        /\ trace w' = trace w
                      ++ flat_map (fun b => read_events b ++ toggle) front
                      ++ read_events last ++ [EvDigitalWrite LENS_ACK 0]
                      ++ fall_events ++ [EvDigitalWrite LENS_ACK 1]
                      ++ high_events ++ write_events (sumZ bs mod 256))
  /\ (forall n P xs acks' rx' w,
         0 <= n <= 255 -> Z.of_nat (length P) = n ->
         length xs = Z.to_nat (n + 2) ->
         Peer ([true; false] ++ replicate (Z.to_nat (n + 1)) false ++ acks')
              (xs ++ rx') w ->
         exists w',
           writeBytesChecksum n P w = Done tt w'
           /\ trace w' = trace w ++ write_frame_events n P)
  /\ (forall w,
         true ∈ sleep_pin w ->
         script_acks negotiation `sublist_of` ack_pin w ->
         (65 <= length (completed (spi w)))%nat ->
         exists w',
           main_negotiation w = Done tt w'
           /\ trace w' = trace w
                         ++ script_events negotiation (completed (spi w)))
  /\ (forall n w1 w2,
         same_timing w1 w2 ->
         same_outcome (readBytesChecksum n w1) (readBytesChecksum n w2))
  /\ (forall n values w1 w2,
         same_timing w1 w2 ->
         same_outcome (writeBytesChecksum n values w1)
                      (writeBytesChecksum n values w2))
  /\ (forall w1 w2,
         same_timing w1 w2 ->
         same_outcome (main_negotiation w1) (main_negotiation w2)).
Proof.
  split; [|split; [|split; [|split; [|split]]]].
  - intros n bs x acks' rx' w Hn Hlen Hpeer.
    destruct bs as [|last front _] using rev_ind; [simpl in Hlen; lia|].
    rewrite length_app in Hlen. simpl in Hlen.
    destruct (runs_readBytesChecksum n front last x Hn ltac:(lia) acks' rx' w)
      as (w' & E & _ & T & _).
    { rewrite <- app_assoc. rewrite <- app_assoc in Hpeer. exact Hpeer. }
    exists w', front, last. split; [reflexivity|]. split; [exact E|].
    rewrite T. reflexivity.
  - intros n P xs acks' rx' w Hn HP Hxs Hpeer.
    destruct (writeFrame_wire_gen n P xs acks' rx' w Hn HP Hxs Hpeer)
      as (w' & E & T & _).
    exists w'. split; assumption.
  - intros w Hsl Hack Hlen.
    destruct (script_runs_exact negotiation (completed (spi w)) w)
      as (w' & E & T).
    + unfold negotiation. repeat constructor; simpl; lia.
    + apply sublist_singleton, Hsl.
    + exact Hack.
    + reflexivity.
    + exact Hlen.
    + rewrite run_negotiation in E. exists w'. split; assumption.
  - intros n. apply data_blind_readBytesChecksum.
  - intros n values. apply data_blind_writeBytesChecksum.
  - rewrite <- run_negotiation. apply data_blind_run_script.
Qed.

Lemma corrupted_exchange_accepted_witness :
  exists w1 w2 wa wb,
    readBytesChecksum 3 (prompt_peer 2 [1; 2; 3; 0]) = Done tt w1
    /\ readBytesChecksum 3 (prompt_peer 2 [1; 2; 99; 0]) = Done tt w2
    /\ wire_tx INPUT 0 (trace w1) = [6]
    /\ wire_tx INPUT 0 (trace w2) = [102]
    /\ main_negotiation (prompt_peer 120 (replicate 65 0)) = Done tt wa
    /\ main_negotiation (prompt_peer 120 (Z.of_nat <$> seq 0 65)) = Done tt wb
    /\ trace wb = script_events negotiation (Z.of_nat <$> seq 0 65)
    /\ shape <$> trace wa = shape <$> trace wb
    /\ received (trace wa) <> received (trace wb).
Proof.
  destruct corrupted_exchange_accepted as (H1 & _ & H3 & _ & _ & H6).
  destruct (H1 3 [1; 2; 3] 0 [] [] (prompt_peer 2 [1; 2; 3; 0]))
    as (w1 & f1 & l1 & B1 & E1 & T1);
    [lia | reflexivity
    | split; [vm_compute; repeat constructor | exists []; reflexivity] |].
  destruct (H1 3 [1; 2; 99] 0 [] [] (prompt_peer 2 [1; 2; 99; 0]))
    as (w2 & f2 & l2 & B2 & E2 & T2);
    [lia | reflexivity
    | split; [vm_compute; repeat constructor | exists []; reflexivity] |].
  apply (app_inj_tail [1; 2] f1 3 l1) in B1 as [<- <-].
  apply (app_inj_tail [1; 2] f2 99 l2) in B2 as [<- <-].
  destruct (H3 (prompt_peer 120 (replicate 65 0))) as (wa & Ea & Ta);
    [apply list_elem_of_In; simpl; auto
    | vm_compute; repeat constructor | vm_compute; lia |].
  destruct (H3 (prompt_peer 120 (Z.of_nat <$> seq 0 65))) as (wb & Eb & Tb);
    [apply list_elem_of_In; simpl; auto
    | vm_compute; repeat constructor | vm_compute; lia |].
  exists w1, w2, wa, wb.
  split; [exact E1|]. split; [exact E2|].
  split; [rewrite T1; reflexivity|]. split; [rewrite T2; reflexivity|].
  split; [exact Ea|]. split; [exact Eb|].
  split; [rewrite Tb; vm_compute; reflexivity|].
  split.
  - specialize (H6 (prompt_peer 120 (replicate 65 0))
                   (prompt_peer 120 (Z.of_nat <$> seq 0 65))).
    rewrite Ea, Eb in H6. apply H6. split; reflexivity.
  - rewrite Ta, Tb. vm_compute. discriminate.
Defined.
